(** * simple-login-app: the identity / consent core of [app/models.py]

    A shallow embedding of the model layer (users and their plan, promo
    codes, generated e-mail aliases, OAuth clients, consent bindings and the
    scope projection) together with the properties its specification states.

    Conventions of the embedding

    - A database row is a record; a nullable column is an [option].
    - A primary key ([db.Integer], autoincrement) is a [Z].
    - An [Arrow] timestamp is an absolute instant, a [Z] counting
      microseconds since the epoch; [arrow.now()] is read once per call and
      is passed to the method as the argument [now]. Comparisons compare
      instants; a shift of the local wall clock goes through the local time
      zone, which is an argument too.
    - A Python exception is the [Raise] branch of [result].
    - Names imported from modules that are not part of [models.py]
      ([app.config], [app.s3], [app.utils], [hashlib]) are section variables:
      every theorem holds for all their values. *)

From Stdlib Require Import ZArith Lia String Ascii List Bool.
From stdpp Require Import base gmap strings list.
Import ListNotations.

Set Default Proof Using "Type".
Set Warnings "-clear-no-such-hyp".

(** ** Python values, exceptions and truthiness *)

Inductive PyError : Type :=
  | TypeError
  | AttributeError
  | IntegrityError
  | RecursionError.

Inductive result (A : Type) : Type :=
  | Ok (a : A)
  | Raise (e : PyError).

Arguments Ok {A} a.
Arguments Raise {A} e.

#[global] Instance result_ret : MRet result := fun A a => Ok a.

#[global] Instance result_bind : MBind result := fun A B k r =>
  match r with
  | Ok a => k a
  | Raise e => Raise e
  end.

(** [if x:] on an integer-or-None column: [None] and [0] are falsy. *)
Definition truthy_int (x : option Z) : bool :=
  match x with
  | Some i => negb (i =? 0)%Z
  | None => false
  end.

(** [if s:] on a string-or-None column: [None] and the empty string are
    falsy. *)
Definition truthy_str (s : option string) : bool :=
  match s with
  | Some EmptyString => false
  | Some (String _ _) => true
  | None => false
  end.

(** ** Timestamps *)

Definition Arrow : Type := Z.

Bind Scope Z_scope with Arrow.

Definition microseconds_per_day : Z := 86400 * 1000000.

(** [n] days of exactly 24 hours after [t]: what [t.shift(days=n)] is on a
    clock whose UTC offset does not change. *)
Definition shift_days (n : Z) (t : Arrow) : Arrow :=
  (t + n * microseconds_per_day)%Z.

(** The local time zone of the server, [dateutil.tz.tzlocal()], which
    [arrow.now()] attaches to the instant it reads. [utcoffset_at i] is the
    UTC offset in force at the instant [i]: the wall clock of [arrow.now()]
    reads [i + utcoffset_at i]. [utcoffset_of_wall w] is the offset the zone
    gives to the wall-clock reading [w]: what [utcoffset()] returns when a
    local time is compared with a timestamp of another zone. Python refuses
    an offset that is not strictly within one day. *)
Record TzLocal : Type := {
  utcoffset_at : Arrow → Z;
  utcoffset_of_wall : Z → Z;
  utcoffset_at_bound :
    ∀ i, (- microseconds_per_day < utcoffset_at i < microseconds_per_day)%Z;
  utcoffset_of_wall_bound :
    ∀ w, (- microseconds_per_day < utcoffset_of_wall w
          < microseconds_per_day)%Z;
}.

(** [arrow.now().shift(weeks=n)]: the local wall clock is moved by [n]
    weeks, and the result is the instant at which the zone shows that
    reading. Across a change of the UTC offset (daylight saving time) the
    result is not [7 * n] days of 24 hours after [now]. *)
Definition shift_weeks (tz : TzLocal) (n : Z) (now : Arrow) : Arrow :=
  let wall := (now + utcoffset_at tz now)%Z in
  let shifted := shift_days (7 * n) wall in
  (shifted - utcoffset_of_wall tz shifted)%Z.

(** By how much the UTC offset of the shifted wall clock differs from the
    offset at [now]. *)
Definition offset_change (tz : TzLocal) (n : Z) (now : Arrow) : Z :=
  (utcoffset_of_wall tz (shift_days (7 * n) (now + utcoffset_at tz now))
   - utcoffset_at tz now)%Z.

(** [a < b] and [a > b] where [a] is a nullable [ArrowType] column: the
    comparison of [None] with an [Arrow] raises [TypeError]. *)
Definition arrow_lt (a : option Arrow) (b : Arrow) : result bool :=
  match a with
  | Some t => Ok (t <? b)%Z
  | None => Raise TypeError
  end.

Definition arrow_gt (a : option Arrow) (b : Arrow) : result bool :=
  match a with
  | Some t => Ok (b <? t)%Z
  | None => Raise TypeError
  end.

(** ** Python [str.split(",")] and [",".join(...)]

    A [string] is the UTF-8 encoding of the Python string. The byte of the
    comma never occurs inside a multi-byte UTF-8 sequence, so splitting and
    joining on that byte is splitting and joining on the character. *)

Definition comma : ascii := ","%char.

Fixpoint split_on (sep : ascii) (s : string) : list string :=
  match s with
  | EmptyString => [EmptyString]
  | String c s' =>
      if Ascii.eqb c sep then EmptyString :: split_on sep s'
      else match split_on sep s' with
           | h :: t => String c h :: t
           | [] => [String c EmptyString]
           end
  end.

Fixpoint join_with (sep : ascii) (l : list string) : string :=
  match l with
  | [] => EmptyString
  | [x] => x
  | x :: l' => String.append x (String sep (join_with sep l'))
  end.

(** [c in s]. *)
Fixpoint contains_char (c : ascii) (s : string) : bool :=
  match s with
  | EmptyString => false
  | String a s' => Ascii.eqb a c || contains_char c s'
  end.

(** ** Rows *)

(** [class File]: [path] is the object-storage key. *)
Record File : Type := {
  file_id : Z;
  file_path : string;
}.

(** [class PlanEnum(enum.Enum)]. *)
Inductive PlanEnum : Type :=
  | free
  | trial
  | monthly
  | yearly.

Definition PlanEnum_eqb (a b : PlanEnum) : bool :=
  match a, b with
  | free, free | trial, trial | monthly, monthly | yearly, yearly => true
  | _, _ => false
  end.

(** [class User]. The foreign key [profile_picture_id] and its relationship
    [profile_picture] are one field: the column is the id of the related
    row. *)
Record User : Type := {
  user_id : Z;
  user_email : string;
  user_name : string;
  plan : PlanEnum;
  plan_expiration : option Arrow;
  profile_picture : option File;
  promo_codes : option string;
}.

Definition profile_picture_id (u : User) : option Z :=
  file_id <$> profile_picture u.

(** [class GenEmail]. *)
Record GenEmail : Type := {
  gen_email_row_id : Z;
  gen_email_user_id : Z;
  gen_email_email : string;
  gen_email_enabled : bool;
}.

(** [GenEmail.filter_by(user_id=uid).count()] on the table [tbl]. *)
Definition GenEmail_count_by_user (tbl : list GenEmail) (uid : Z) : Z :=
  Z.of_nat (length (filter (fun g => gen_email_user_id g = uid) tbl)).

(** ** Plan and quota: [User.should_upgrade], [User.is_premium],
    [User.can_create_new_email] *)

Definition should_upgrade (tz : TzLocal) (now : Arrow) (u : User)
    : result bool :=
  if PlanEnum_eqb (plan u) free then Ok true
  else
    c ← (if PlanEnum_eqb (plan u) trial
         then arrow_lt (plan_expiration u) (shift_weeks tz 1 now)
         else Ok false);
    if (c : bool) then Ok true else Ok false.

Definition is_premium (u : User) : bool :=
  PlanEnum_eqb (plan u) monthly || PlanEnum_eqb (plan u) yearly.

Section Quota.

(** [app.config.MAX_NB_EMAIL_FREE_PLAN]. *)
Variable MAX_NB_EMAIL_FREE_PLAN : Z.

Definition can_create_new_email
    (tbl : list GenEmail) (now : Arrow) (u : User) : result bool :=
  if is_premium u then Ok true
  else
    c ← (if PlanEnum_eqb (plan u) trial
         then arrow_gt (plan_expiration u) now
         else Ok false);
    if (c : bool) then Ok true
    else Ok (GenEmail_count_by_user tbl (user_id u) <? MAX_NB_EMAIL_FREE_PLAN)%Z.

End Quota.

(** The two evaluators as section 4.2 of the specification words them, for
    comparison with the methods: booleans for every user, [now] plus 7 days
    of 24 hours, and a [plan_expiration] that is not after (not before) the
    instant of comparison when it is null. *)
Definition shouldPromptUpgrade (now : Arrow) (u : User) : bool :=
  match plan u with
  | free => true
  | trial =>
      match plan_expiration u with
      | Some t => (t <? shift_days 7 now)%Z
      | None => false
      end
  | monthly | yearly => false
  end.

Definition canCreateAlias (MAX : Z) (now : Arrow) (u : User)
    (currentAliasCount : Z) : bool :=
  match plan u with
  | monthly | yearly => true
  | trial =>
      match plan_expiration u with
      | Some t => (now <? t)%Z || (currentAliasCount <? MAX)%Z
      | None => (currentAliasCount <? MAX)%Z
      end
  | free => (currentAliasCount <? MAX)%Z
  end.

(** ** Promo codes: [User.get_promo_codes], [User.save_new_promo_code] *)

Definition get_promo_codes (u : User) : list string :=
  if negb (truthy_str (promo_codes u)) then []
  else match promo_codes u with
       | Some s => split_on comma s
       | None => []
       end.

Definition set_promo_codes (s : string) (u : User) : User :=
  {| user_id := user_id u;
     user_email := user_email u;
     user_name := user_name u;
     plan := plan u;
     plan_expiration := plan_expiration u;
     profile_picture := profile_picture u;
     promo_codes := Some s |}.

Definition save_new_promo_code (promo_code : string) (u : User) : User :=
  let current_promo_codes := get_promo_codes u ++ [promo_code] in
  set_promo_codes (join_with comma current_promo_codes) u.

(** ** User creation: [ModelMixin.create] at [User]

    [User.create] builds the row from its keyword arguments [kw]; a column
    that is not given takes its default: [plan] defaults to [PlanEnum.free],
    every nullable column to [None]. The model declares no validator and no
    check constraint relating two columns. Columns that no modelled method
    reads ([salt], [password], [is_admin], ...) are left out of [User]. *)

Record UserKw : Type := {
  kw_email : string;
  kw_name : string;
  kw_plan : option PlanEnum;
  kw_plan_expiration : option Arrow;
  kw_profile_picture : option File;
  kw_promo_codes : option string;
}.

(** [new_id] is the primary key the database assigns to the row. *)
Definition User_create (new_id : Z) (kw : UserKw) : User :=
  {| user_id := new_id;
     user_email := kw_email kw;
     user_name := kw_name kw;
     plan := default free (kw_plan kw);
     plan_expiration := kw_plan_expiration kw;
     profile_picture := kw_profile_picture kw;
     promo_codes := kw_promo_codes kw |}.

(** [u.plan = p] and [u.plan_expiration = e]: plain attribute assignments. *)
Definition set_plan (p : PlanEnum) (u : User) : User :=
  {| user_id := user_id u;
     user_email := user_email u;
     user_name := user_name u;
     plan := p;
     plan_expiration := plan_expiration u;
     profile_picture := profile_picture u;
     promo_codes := promo_codes u |}.

Definition set_plan_expiration (e : option Arrow) (u : User) : User :=
  {| user_id := user_id u;
     user_email := user_email u;
     user_name := user_name u;
     plan := plan u;
     plan_expiration := e;
     profile_picture := profile_picture u;
     promo_codes := promo_codes u |}.

(** The relation the specification states between the two columns. *)
Definition plan_expiration_invariant (u : User) : Prop :=
  is_Some (plan_expiration u) ↔ plan u = trial.

(** ** OAuth clients *)

(** [class Client]; [icon] carries the foreign key [icon_id] as
    [profile_picture] does in [User]. *)
Record Client : Type := {
  client_row_id : Z;
  oauth_client_id : string;
  oauth_client_secret : string;
  client_name : string;
  client_owner_id : Z;
  icon : option File;
}.

Definition icon_id (c : Client) : option Z :=
  file_id <$> icon c.

(** Modelled from the spec: the enumeration [app.oauth_models.Scope], which
    [models.py] imports. The specification names three scopes, and the
    docstring of [get_user_info] gives the dictionary keys that are their
    values. *)
Inductive Scope : Type :=
  | NAME
  | EMAIL
  | AVATAR_URL.

Definition Scope_value (s : Scope) : string :=
  match s with
  | NAME => "name"
  | EMAIL => "email"
  | AVATAR_URL => "avatar_url"
  end.

Definition Scope_eqb (a b : Scope) : bool :=
  match a, b with
  | NAME, NAME | EMAIL, EMAIL | AVATAR_URL, AVATAR_URL => true
  | _, _ => false
  end.

#[global] Instance Scope_eq_dec : EqDecision Scope.
Proof. solve_decision. Defined.

(** [Client.get_scopes]. *)
Definition get_scopes (c : Client) : list Scope :=
  [NAME; EMAIL; AVATAR_URL].

(** ** Stored images: [File.get_url], [User.profile_picture_url],
    [Client.get_icon_url] *)

Section Urls.

(** [app.s3.get_url], [hashlib.md5(s.encode("utf-8")).hexdigest()] and
    [app.config.URL]. *)
Variable s3_get_url : string → string.
Variable md5_hexdigest : string → string.
Variable URL : string.

Definition get_url (f : File) : string := s3_get_url (file_path f).

(** [self.<relationship>.get_url()]: attribute access on a relationship
    that holds [None] raises [AttributeError]. *)
Definition related_get_url (f : option File) : result string :=
  match f with
  | Some f => Ok (get_url f)
  | None => Raise AttributeError
  end.

Definition profile_picture_url (u : User) : result string :=
  if truthy_int (profile_picture_id u) then
    related_get_url (profile_picture u)
  else
    let hash_email := md5_hexdigest (user_email u) in
    Ok ("https://www.gravatar.com/avatar/" +:+ hash_email).

Definition get_icon_url (c : Client) : result string :=
  if truthy_int (icon_id c) then related_get_url (icon c)
  else Ok (URL +:+ "/static/default-icon.svg").

End Urls.

(** ** Consent bindings and the scope projection *)

(** [class ClientUser] as the ORM loads it: the relationships [user],
    [client] and [gen_email] hold the related rows, and the foreign keys
    [user_id], [client_id] and [gen_email_id] are their primary keys. *)
Record ClientUser : Type := {
  client_user_id : Z;
  cu_user : User;
  cu_client : Client;
  cu_gen_email : option GenEmail;
}.

Definition gen_email_id (cu : ClientUser) : option Z :=
  gen_email_row_id <$> cu_gen_email cu.

(** [self.gen_email.email]. *)
Definition related_email (g : option GenEmail) : result string :=
  match g with
  | Some g => Ok (gen_email_email g)
  | None => Raise AttributeError
  end.

Definition get_email (cu : ClientUser) : result string :=
  if truthy_int (gen_email_id cu) then related_email (cu_gen_email cu)
  else Ok (user_email (cu_user cu)).

(** The values a dictionary of [get_user_info] holds. *)
Inductive PyValue : Type :=
  | PyInt (z : Z)
  | PyStr (s : string)
  | PyBool (b : bool)
  | PyNone.

Section Projection.

Variable s3_get_url : string → string.

(** One iteration of the loop of [get_user_info]. *)
Definition project_scope (cu : ClientUser) (res : gmap string PyValue)
    (scope : Scope) : result (gmap string PyValue) :=
  if Scope_eqb scope NAME then
    Ok (<[Scope_value NAME := PyStr (user_name (cu_user cu))]> res)
  else if Scope_eqb scope AVATAR_URL then
    if truthy_int (profile_picture_id (cu_user cu)) then
      url ← related_get_url s3_get_url (profile_picture (cu_user cu));
      Ok (<[Scope_value AVATAR_URL := PyStr url]> res)
    else Ok (<[Scope_value AVATAR_URL := PyNone]> res)
  else if Scope_eqb scope EMAIL then
    if truthy_int (gen_email_id cu) then
      e ← related_email (cu_gen_email cu);
      Ok (<[Scope_value EMAIL := PyStr e]> res)
    else Ok (<[Scope_value EMAIL := PyStr (user_email (cu_user cu))]> res)
  else Ok res.

Fixpoint for_scopes (cu : ClientUser) (scopes : list Scope)
    (res : gmap string PyValue) : result (gmap string PyValue) :=
  match scopes with
  | [] => Ok res
  | scope :: rest =>
      res' ← project_scope cu res scope;
      for_scopes cu rest res'
  end.

(** The body of [get_user_info], the list it iterates over being the
    argument [scopes]. *)
Definition get_user_info_scopes (scopes : list Scope) (cu : ClientUser)
    : result (gmap string PyValue) :=
  let res : gmap string PyValue :=
    <["email_verified" := PyBool true]>
      (<["client" := PyStr (client_name (cu_client cu))]>
         (<["id" := PyInt (client_user_id cu)]> ∅)) in
  for_scopes cu scopes res.

Definition get_user_info (cu : ClientUser) : result (gmap string PyValue) :=
  get_user_info_scopes (get_scopes (cu_client cu)) cu.

End Projection.

(** ** Identifier generation: [generate_email], [generate_oauth_client_id]

    [random_words()] and [random_string()] of [app.utils] draw from a random
    source: the source is a sequence of draws, and the number of draws
    consumed so far is threaded through the call. Both functions call
    themselves on a collision; [depth] is the number of frames the
    interpreter still allows, and a call at depth [0] raises
    [RecursionError]. *)

(** [GenEmail.get_by(email=e)] and [Client.get_by(oauth_client_id=i)]:
    the first row with that value, if any. *)
Definition GenEmail_get_by_email (tbl : list GenEmail) (e : string)
    : option GenEmail :=
  find (fun g => String.eqb (gen_email_email g) e) tbl.

Definition Client_get_by_oauth_client_id (tbl : list Client) (i : string)
    : option Client :=
  find (fun c => String.eqb (oauth_client_id c) i) tbl.

(** [not r] for a row-or-None: a row object is truthy. *)
Definition is_none {A : Type} (r : option A) : bool :=
  match r with
  | Some _ => false
  | None => true
  end.

Section Generators.

(** [app.config.EMAIL_DOMAIN] and [app.utils.convert_to_id]. *)
Variable EMAIL_DOMAIN : string.
Variable convert_to_id : string → string.

Fixpoint generate_email (depth : nat) (tbl : list GenEmail)
    (random_words : nat → string) (drawn : nat) : result (string * nat) :=
  match depth with
  | O => Raise RecursionError
  | S depth' =>
      let random_email := random_words drawn +:+ "@" +:+ EMAIL_DOMAIN in
      if is_none (GenEmail_get_by_email tbl random_email) then
        Ok (random_email, S drawn)
      else generate_email depth' tbl random_words (S drawn)
  end.

Fixpoint generate_oauth_client_id (depth : nat) (tbl : list Client)
    (random_string : nat → string) (drawn : nat) (client_name : string)
    : result (string * nat) :=
  match depth with
  | O => Raise RecursionError
  | S depth' =>
      let candidate :=
        convert_to_id client_name +:+ "-" +:+ random_string drawn in
      if is_none (Client_get_by_oauth_client_id tbl candidate) then
        Ok (candidate, S drawn)
      else
        generate_oauth_client_id depth' tbl random_string (S drawn)
          client_name
  end.

End Generators.

(** The candidates the two functions build from a draw, and the statement
    that no call consumes more than [cap] draws beyond the first. *)
Definition email_candidate (EMAIL_DOMAIN : string) (word : string) : string :=
  word +:+ "@" +:+ EMAIL_DOMAIN.

Definition client_id_candidate (convert_to_id : string → string)
    (client_name : string) (suffix : string) : string :=
  convert_to_id client_name +:+ "-" +:+ suffix.

Definition retries_capped (cap : nat) : Prop :=
  ∀ (EMAIL_DOMAIN : string) (depth : nat) (tbl : list GenEmail)
    (random_words : nat → string) (e : string) (drawn : nat),
    generate_email EMAIL_DOMAIN depth tbl random_words 0 = Ok (e, drawn) →
    drawn ≤ S cap.

(** ** [ModelMixin]: the class methods every model inherits

    A model gives the primary key of a row, the test [filter_by(kw)] applies
    to a row, the row [cls(kw)] builds once the database has assigned its
    primary key, and the constraints its table declares. A table is its rows
    in insertion order and the primary key the database gives to the next
    row ([next_id]).
    [db.session.add] is modelled together with the flush that follows it
    (the session flushes before every query): a row that violates a
    constraint of the table is refused with [IntegrityError].

    How the key of the next row is found depends on the database the
    application is run with, which the repository does not fix. With a
    sequence (PostgreSQL [SERIAL]) a deletion leaves the sequence where it
    is. With the column as declared on SQLite the key is one more than the
    largest key stored, [1] in an empty table, so a deletion of the row with
    the largest key makes that key the next one again. *)

Inductive KeyAllocation : Type :=
  | FromSequence
  | LargestPlusOne.

Definition largest_key (keys : list Z) : Z := foldr Z.max 0%Z keys.

Class Model (Row Kw : Type) : Type := {
  row_id : Row → Z;
  filter_matches : Kw → Row → bool;
  construct : Z → Kw → Row;
  constraints_hold : list Row → Row → bool;
}.

Record Table (Row : Type) : Type := {
  rows : list Row;
  next_id : Z;
}.

Arguments rows {Row} t.
Arguments next_id {Row} t.

Section ModelMixin.

Context {Row Kw : Type} `{M : Model Row Kw}.

Definition empty_table : Table Row := {| rows := []; next_id := 1 |}.

Definition get_by (kw : Kw) (t : Table Row) : option Row :=
  find (filter_matches kw) (rows t).

Definition session_add (r : Row) (t : Table Row) : result (Table Row) :=
  if constraints_hold (rows t) r then
    Ok {| rows := rows t ++ [r]; next_id := (next_id t + 1)%Z |}
  else Raise IntegrityError.

Definition get_or_create (kw : Kw) (t : Table Row)
    : result (Row * Table Row) :=
  match get_by kw t with
  | Some r => Ok (r, t)
  | None =>
      let r := construct (next_id t) kw in
      t' ← session_add r t;
      Ok (r, t')
  end.

Definition create (kw : Kw) (t : Table Row) : result (Row * Table Row) :=
  let r := construct (next_id t) kw in
  t' ← session_add r t;
  Ok (r, t').

Definition delete (backend : KeyAllocation) (obj_id : Z) (t : Table Row)
    : Table Row :=
  let remaining :=
    List.filter (fun r => negb (row_id r =? obj_id)%Z) (rows t) in
  {| rows := remaining;
     next_id :=
       match backend with
       | FromSequence => next_id t
       | LargestPlusOne => (largest_key (row_id <$> remaining) + 1)%Z
       end |}.

(** The tables the program can reach: the empty table, and what a
    successful [get_or_create], a successful [create] or a [delete], on
    either kind of database, makes of a reachable table. *)
Inductive table_step : Table Row → Table Row → Prop :=
  | step_get_or_create kw t r t' :
      get_or_create kw t = Ok (r, t') → table_step t t'
  | step_create kw t r t' :
      create kw t = Ok (r, t') → table_step t t'
  | step_delete backend obj_id t :
      table_step t (delete backend obj_id t).

Definition reachable (t : Table Row) : Prop := rtc table_step empty_table t.

End ModelMixin.

(** The table of [ClientUser]: its columns, the keyword arguments of a
    lookup or a creation ([user_id] and [client_id] are not nullable and are
    always given; [gen_email_id] may be left out), and the constraint
    [uq_client_user]. *)
Record ClientUserRow : Type := {
  cur_id : Z;
  cur_user_id : Z;
  cur_client_id : Z;
  cur_gen_email_id : option Z;
}.

Record ClientUserKw : Type := {
  kw_user_id : Z;
  kw_client_id : Z;
  kw_gen_email_id : option (option Z);
}.

Definition option_Z_eqb (a b : option Z) : bool :=
  match a, b with
  | Some x, Some y => (x =? y)%Z
  | None, None => true
  | _, _ => false
  end.

Definition same_pair (user client : Z) (r : ClientUserRow) : bool :=
  (cur_user_id r =? user)%Z && (cur_client_id r =? client)%Z.

Definition uq_client_user (tbl : list ClientUserRow) (r : ClientUserRow)
    : bool :=
  negb (existsb (same_pair (cur_user_id r) (cur_client_id r)) tbl).

#[global] Instance ClientUser_model : Model ClientUserRow ClientUserKw := {|
  row_id := cur_id;
  filter_matches kw r :=
    same_pair (kw_user_id kw) (kw_client_id kw) r
    && match kw_gen_email_id kw with
       | Some g => option_Z_eqb (cur_gen_email_id r) g
       | None => true
       end;
  construct new_id kw :=
    {| cur_id := new_id;
       cur_user_id := kw_user_id kw;
       cur_client_id := kw_client_id kw;
       cur_gen_email_id := default None (kw_gen_email_id kw) |};
  constraints_hold := uq_client_user;
|}.

(** [getOrCreateBinding(client, user)]:
    [ClientUser.get_or_create(client_id=client, user_id=user)]. *)
Definition binding_kw (client user : Z) : ClientUserKw :=
  {| kw_user_id := user; kw_client_id := client; kw_gen_email_id := None |}.

Definition bindings_of (client user : Z) (t : Table ClientUserRow)
    : list ClientUserRow :=
  List.filter (same_pair user client) (rows t).

(** At most one binding for every pair of a client and a user. *)
Definition at_most_one_binding (t : Table ClientUserRow) : Prop :=
  ∀ client user, length (bindings_of client user t) ≤ 1.

(** ** Authorization codes and access tokens *)

(** [class AuthorizationCode] and [class OauthToken], with the column
    [created_at] both inherit from [ModelMixin]. *)
Record AuthorizationCode : Type := {
  ac_id : Z;
  ac_created_at : Arrow;
  ac_code : string;
  ac_client_id : Z;
  ac_user_id : Z;
  ac_scope : option string;
  ac_redirect_uri : option string;
}.

Record OauthToken : Type := {
  tok_id : Z;
  tok_access_token : option string;
  tok_client_id : Z;
  tok_user_id : Z;
  tok_scope : option string;
  tok_redirect_uri : option string;
}.

(** Modelled from the spec: the errors of the authorization / token issuer
    (section 7). [models.py] declares the two tables only. *)
Inductive GrantError : Type :=
  | InvalidGrant
  | ExpiredGrant
  | UnauthorizedClient.

(** The state of the issuer. The column [code] is declared [unique]: the
    table of authorization codes is a finite map keyed by it. *)
Record Issuer : Type := {
  iss_clients : list Client;
  iss_codes : gmap string AuthorizationCode;
  iss_tokens : list OauthToken;
  iss_next_token_id : Z;
}.

Record ExchangeRequest : Type := {
  req_code : string;
  req_client_id : string;
  req_client_secret : string;
  req_redirect_uri : option string;
}.

Inductive ExchangeResult : Type :=
  | Issued (tok : OauthToken) (st : Issuer)
  | Refused (e : GrantError).

Definition option_string_eqb (a b : option string) : bool :=
  match a, b with
  | Some x, Some y => String.eqb x y
  | None, None => true
  | _, _ => false
  end.

Definition find_client (req : ExchangeRequest) (clients : list Client)
    : option Client :=
  find (fun c => String.eqb (oauth_client_id c) (req_client_id req)
                 && String.eqb (oauth_client_secret c) (req_client_secret req))
       clients.

Section TokenIssuer.

(** The validity window of an authorization code, in microseconds. *)
Variable AUTH_CODE_TTL : Z.

Definition code_expired (now : Arrow) (ac : AuthorizationCode) : bool :=
  (ac_created_at ac + AUTH_CODE_TTL <=? now)%Z.

(** Modelled from the spec: the transition [code_issued → exchanged] of
    section 4.5, which is not part of [models.py]. A code presented with
    the credentials of a known client, unexpired, with the redirect URI it
    was issued for, yields an access token of identical scope, and the
    code is removed from its table in the same step. A code that is not
    in the table (never issued, or consumed) is [InvalidGrant], an unknown
    client [UnauthorizedClient], an expired code [ExpiredGrant], a code of
    another client or another redirect URI [InvalidGrant].
    [access_token] is the fresh opaque string of the token. *)
Definition exchange (now : Arrow) (access_token : string)
    (req : ExchangeRequest) (st : Issuer) : ExchangeResult :=
  match iss_codes st !! req_code req with
  | None => Refused InvalidGrant
  | Some ac =>
      match find_client req (iss_clients st) with
      | None => Refused UnauthorizedClient
      | Some client =>
          if negb (ac_client_id ac =? client_row_id client)%Z then
            Refused InvalidGrant
          else if code_expired now ac then Refused ExpiredGrant
          else if negb (option_string_eqb (ac_redirect_uri ac)
                          (req_redirect_uri req)) then
            Refused InvalidGrant
          else
            let tok :=
              {| tok_id := iss_next_token_id st;
                 tok_access_token := Some access_token;
                 tok_client_id := ac_client_id ac;
                 tok_user_id := ac_user_id ac;
                 tok_scope := ac_scope ac;
                 tok_redirect_uri := ac_redirect_uri ac |} in
            Issued tok
              {| iss_clients := iss_clients st;
                 iss_codes := base.delete (req_code req) (iss_codes st);
                 iss_tokens := iss_tokens st ++ [tok];
                 iss_next_token_id := (iss_next_token_id st + 1)%Z |}
      end
  end.

(** What a caller observes of an exchange: the token, if one was issued,
    and the state afterwards (unchanged when the exchange is refused). *)
Definition issued_token (r : ExchangeResult) : option OauthToken :=
  match r with
  | Issued tok _ => Some tok
  | Refused _ => None
  end.

Definition state_after (st : Issuer) (r : ExchangeResult) : Issuer :=
  match r with
  | Issued _ st' => st'
  | Refused _ => st
  end.

End TokenIssuer.

(** ** The attribute a scope discloses

    What the projection binds to the key of a scope, read off the rows: the
    user's name; the URL of the profile picture, or [None] when the user has
    none; the address of the alias the binding references, or the user's own
    address when it references none. A foreign key is tested for truth, so a
    related row whose primary key is [0] counts as absent. *)

Definition references (row_pk : Z) : bool := negb (row_pk =? 0)%Z.

Definition disclosed (s3_get_url : string → string) (cu : ClientUser)
    (scope : Scope) : PyValue :=
  match scope with
  | NAME => PyStr (user_name (cu_user cu))
  | AVATAR_URL =>
      match profile_picture (cu_user cu) with
      | Some f =>
          if references (file_id f) then PyStr (s3_get_url (file_path f))
          else PyNone
      | None => PyNone
      end
  | EMAIL =>
      match cu_gen_email cu with
      | Some g =>
          if references (gen_email_row_id g) then PyStr (gen_email_email g)
          else PyStr (user_email (cu_user cu))
      | None => PyStr (user_email (cu_user cu))
      end
  end.

Definition project_all (s3_get_url : string → string) (cu : ClientUser)
    (scopes : list Scope) (res : gmap string PyValue) : gmap string PyValue :=
  foldl (fun r scope => <[Scope_value scope := disclosed s3_get_url cu scope]> r)
        res scopes.

(** The three entries every projection starts from. *)
Definition base_info (cu : ClientUser) : gmap string PyValue :=
  <["email_verified" := PyBool true]>
    (<["client" := PyStr (client_name (cu_client cu))]>
       (<["id" := PyInt (client_user_id cu)]> ∅)).

(** ** Sample rows

    Concrete rows on which the properties below are instantiated. *)

Definition sample_kw : UserKw :=
  {| kw_email := "jo@example.org";
     kw_name := "Jo";
     kw_plan := None;
     kw_plan_expiration := None;
     kw_profile_picture := None;
     kw_promo_codes := None |}.

Definition trial_without_expiration_kw : UserKw :=
  {| kw_email := "jo@example.org";
     kw_name := "Jo";
     kw_plan := Some trial;
     kw_plan_expiration := None;
     kw_profile_picture := None;
     kw_promo_codes := None |}.

Definition free_user : User := User_create 1 sample_kw.

(** A server whose local zone is UTC. *)
Definition utc : TzLocal.
Proof.
  refine {| utcoffset_at := fun _ => 0%Z; utcoffset_of_wall := fun _ => 0%Z |};
    intros; unfold microseconds_per_day; lia.
Defined.

(** A zone two hours ahead of UTC that goes back to one hour ahead at the
    instant [3] days: daylight saving time ends within the week that starts
    at the instant [0]. *)
Definition hour : Z := 3600 * 1000000.

Definition dst_ends : TzLocal.
Proof.
  refine {| utcoffset_at := fun i =>
              if (i <? shift_days 3 0)%Z then (2 * hour)%Z else hour;
            utcoffset_of_wall := fun w =>
              if (w <? shift_days 3 0 + 2 * hour)%Z then (2 * hour)%Z
              else hour |};
    intros; unfold microseconds_per_day, hour;
    match goal with |- context [if ?c then _ else _] => destruct c end; lia.
Defined.

(** A trial user whose [plan_expiration] is null, and one whose trial
    expires exactly 7 days of 24 hours after the instant [0]. *)
Definition trial_user_without_expiration : User :=
  User_create 1 trial_without_expiration_kw.

Definition trial_user_seven_days : User :=
  set_plan_expiration (Some (shift_days 7 0)) (set_plan trial free_user).

Definition trial_user : User :=
  set_plan_expiration (Some 1000000%Z) (set_plan trial free_user).

Definition taken_aliases : list GenEmail :=
  [{| gen_email_row_id := 1;
      gen_email_user_id := 1;
      gen_email_email := "taken@sl.co";
      gen_email_enabled := true |}].

(** A random source whose first [n] draws are the word of the stored
    alias. *)
Definition collisions (n : nat) (i : nat) : string :=
  if (i <? n)%nat then "taken" else "free".

Definition sample_s3_get_url (path : string) : string :=
  "https://s3.example.org/" +:+ path.

(** A stand-in for the digest: the properties hold for every function. *)
Definition sample_md5_hexdigest (s : string) : string :=
  "d41d8cd98f00b204e9800998ecf8427e".

Definition sample_client : Client :=
  {| client_row_id := 7;
     oauth_client_id := "demo-abcde";
     oauth_client_secret := "s3cr3t";
     client_name := "Demo";
     client_owner_id := 1;
     icon := None |}.

Definition alias_a1 : GenEmail :=
  {| gen_email_row_id := 4;
     gen_email_user_id := 1;
     gen_email_email := "a1@domain";
     gen_email_enabled := true |}.

Definition sample_binding : ClientUser :=
  {| client_user_id := 12;
     cu_user := free_user;
     cu_client := sample_client;
     cu_gen_email := Some alias_a1 |}.

Definition sample_row : ClientUserRow :=
  {| cur_id := 1; cur_user_id := 1; cur_client_id := 7;
     cur_gen_email_id := None |}.

Definition sample_table : Table ClientUserRow :=
  {| rows := [sample_row]; next_id := 2 |}.

Definition sample_row_key_two : ClientUserRow :=
  {| cur_id := 2; cur_user_id := 1; cur_client_id := 7;
     cur_gen_email_id := None |}.

Definition sample_code : AuthorizationCode :=
  {| ac_id := 1;
     ac_created_at := 0%Z;
     ac_code := "c0de";
     ac_client_id := 7;
     ac_user_id := 1;
     ac_scope := Some "name email";
     ac_redirect_uri := Some "https://demo.example.org/callback" |}.

Definition sample_issuer : Issuer :=
  {| iss_clients := [sample_client];
     iss_codes := {["c0de" := sample_code]};
     iss_tokens := [];
     iss_next_token_id := 1 |}.

Definition sample_request : ExchangeRequest :=
  {| req_code := "c0de";
     req_client_id := "demo-abcde";
     req_client_secret := "s3cr3t";
     req_redirect_uri := Some "https://demo.example.org/callback" |}.

Definition sample_token : OauthToken :=
  {| tok_id := 1;
     tok_access_token := Some "t0ken";
     tok_client_id := 7;
     tok_user_id := 1;
     tok_scope := Some "name email";
     tok_redirect_uri := Some "https://demo.example.org/callback" |}.

Definition sample_issuer_after : Issuer :=
  {| iss_clients := [sample_client];
     iss_codes := base.delete "c0de" ({["c0de" := sample_code]} : gmap string AuthorizationCode);
     iss_tokens := [sample_token];
     iss_next_token_id := 2 |}.

(** ** More of [ModelMixin]: [get], [filter_by] *)

Section ModelMixinQueries.

Context {Row Kw : Type} `{M : Model Row Kw}.

(** [cls.get(id)]: the row with that primary key, or [None]. *)
Definition get (obj_id : Z) (t : Table Row) : option Row :=
  find (fun r => (row_id r =? obj_id)%Z) (rows t).

(** [cls.filter_by(kw)]: the rows the query selects; [.count()] is the
    length of the list, [.first()] its head. *)
Definition filter_by (kw : Kw) (t : Table Row) : list Row :=
  List.filter (filter_matches kw) (rows t).

(** What the database keeps of every table: primary keys are pairwise
    distinct and were all drawn from the sequence. *)
Definition primary_keys_ok (t : Table Row) : Prop :=
  NoDup (row_id <$> rows t)
  ∧ (1 ≤ next_id t)%Z
  ∧ ∀ r, r ∈ rows t → (1 ≤ row_id r < next_id t)%Z.

End ModelMixinQueries.

(** What every model of the file satisfies: [cls(kw)] stores the primary key
    the database assigns, and the row built from [kw] is selected by
    [filter_by(kw)]. *)
Class ModelLaws (Row Kw : Type) `{M : Model Row Kw} : Prop := {
  row_id_construct : ∀ i kw, row_id (construct i kw) = i;
  construct_matches : ∀ i kw, filter_matches kw (construct i kw) = true;
}.

(** ** The table of [GenEmail] and [GenEmail.create_new_gen_email]

    The column [email] is declared [unique]; [enabled] defaults to [True]. *)

Record GenEmailKw : Type := {
  gkw_user_id : Z;
  gkw_email : string;
}.

Definition same_email (e : string) (g : GenEmail) : bool :=
  String.eqb (gen_email_email g) e.

#[global] Instance GenEmail_model : Model GenEmail GenEmailKw := {|
  row_id := gen_email_row_id;
  filter_matches kw g :=
    (gen_email_user_id g =? gkw_user_id kw)%Z
    && same_email (gkw_email kw) g;
  construct new_id kw :=
    {| gen_email_row_id := new_id;
       gen_email_user_id := gkw_user_id kw;
       gen_email_email := gkw_email kw;
       gen_email_enabled := true |};
  constraints_hold tbl g := negb (existsb (same_email (gen_email_email g)) tbl);
|}.

Section CreateAlias.

Variable EMAIL_DOMAIN : string.

(** [GenEmail.create_new_gen_email(user_id)]; the number of draws consumed
    is returned with the row and the table. *)
Definition create_new_gen_email (depth : nat) (random_words : nat → string)
    (drawn : nat) (user : Z) (t : Table GenEmail)
    : result (GenEmail * Table GenEmail * nat) :=
  '(random_email, drawn') ←
    generate_email EMAIL_DOMAIN depth (rows t) random_words drawn;
  '(g, t') ← create {| gkw_user_id := user; gkw_email := random_email |} t;
  Ok (g, t', drawn').

End CreateAlias.

(** The addresses of a table are pairwise distinct. *)
Definition unique_emails (t : Table GenEmail) : Prop :=
  NoDup (gen_email_email <$> rows t).

(** ** The table of [Client], [Client.create_new] and [Client.nb_user]

    The column [oauth_client_id] is declared [unique]. *)

Record ClientKw : Type := {
  ckw_name : string;
  ckw_oauth_client_id : string;
  ckw_oauth_client_secret : string;
  ckw_user_id : Z;
}.

Definition same_oauth_client_id (i : string) (c : Client) : bool :=
  String.eqb (oauth_client_id c) i.

#[global] Instance Client_model : Model Client ClientKw := {|
  row_id := client_row_id;
  filter_matches kw c :=
    String.eqb (client_name c) (ckw_name kw)
    && same_oauth_client_id (ckw_oauth_client_id kw) c
    && String.eqb (oauth_client_secret c) (ckw_oauth_client_secret kw)
    && (client_owner_id c =? ckw_user_id kw)%Z;
  construct new_id kw :=
    {| client_row_id := new_id;
       oauth_client_id := ckw_oauth_client_id kw;
       oauth_client_secret := ckw_oauth_client_secret kw;
       client_name := ckw_name kw;
       client_owner_id := ckw_user_id kw;
       icon := None |};
  constraints_hold tbl c :=
    negb (existsb (same_oauth_client_id (oauth_client_id c)) tbl);
|}.

Section CreateClient.

(** [app.utils.convert_to_id]; [random_string length n] is what the [n]-th
    call of [app.utils.random_string] returns when it is asked for [length]
    characters, and [DEFAULT_LENGTH] is the default of that argument. *)
Variable convert_to_id : string → string.
Variable random_string : nat → nat → string.
Variable DEFAULT_LENGTH : nat.

(** [Client.create_new(name, user_id)]. *)
Definition create_new (depth : nat) (drawn : nat) (name : string) (user : Z)
    (t : Table Client) : result (Client * Table Client * nat) :=
  '(new_oauth_client_id, drawn') ←
    generate_oauth_client_id convert_to_id depth (rows t)
      (random_string DEFAULT_LENGTH) drawn name;
  let new_oauth_client_secret := random_string 40 drawn' in
  '(client, t') ← create {| ckw_name := name;
                            ckw_oauth_client_id := new_oauth_client_id;
                            ckw_oauth_client_secret := new_oauth_client_secret;
                            ckw_user_id := user |} t;
  Ok (client, t', S drawn').

End CreateClient.

Definition unique_oauth_client_ids (t : Table Client) : Prop :=
  NoDup (oauth_client_id <$> rows t).

(** [Client.nb_user]: [ClientUser.filter_by(client_id=self.id).count()]. *)
Definition of_client (client : Z) (r : ClientUserRow) : bool :=
  (cur_client_id r =? client)%Z.

Definition nb_user (c : Client) (t : Table ClientUserRow) : Z :=
  Z.of_nat (length (List.filter (of_client (client_row_id c)) (rows t))).

(** The users of the rows [nb_user] counts. *)
Definition users_of_client (client : Z) (t : Table ClientUserRow) : list Z :=
  cur_user_id <$> List.filter (of_client client) (rows t).

(** ** [ActivationCode]

    The class declares [expired] with [default=arrow.now().shift(hours=1)],
    as [ResetPasswordCode] does. The
    expression is evaluated once, when the class body runs at the import of
    the module, and the column default is that value; [created_at] has the
    function [arrow.utcnow] as default, which is called at each insertion. *)





Definition sample_alias_table : Table GenEmail :=
  {| rows := taken_aliases; next_id := 2 |}.

Definition sample_new_alias : GenEmail :=
  {| gen_email_row_id := 2;
     gen_email_user_id := 1;
     gen_email_email := "free@sl.co";
     gen_email_enabled := true |}.

Definition sample_client_table : Table Client :=
  {| rows := [sample_client]; next_id := 8 |}.

(** A random source for identifiers: the first draw repeats the suffix of
    the stored client, the later ones are fresh. *)
Definition sample_random_string (length n : nat) : string :=
  if (n =? 0)%nat then "abcde"
  else if (length =? 40)%nat then "0123456789012345678901234567890123456789"
  else "fghij".

Definition sample_convert_to_id (name : string) : string := "demo".

Definition sample_new_client : Client :=
  {| client_row_id := 8;
     oauth_client_id := "demo-fghij";
     oauth_client_secret := "0123456789012345678901234567890123456789";
     client_name := "Demo";
     client_owner_id := 1;
     icon := None |}.

Definition sample_second_row : ClientUserRow :=
  {| cur_id := 2; cur_user_id := 1; cur_client_id := 9;
     cur_gen_email_id := None |}.

Definition sample_table_two : Table ClientUserRow :=
  {| rows := [sample_row; sample_second_row]; next_id := 3 |}.

(** * Properties *)

(** ** The embedding on small inputs *)

Example split_on_three : split_on comma "a,,b" = ["a"; ""; "b"]%string.
Proof. reflexivity. Qed.

Example split_on_empty : split_on comma "" = [""%string].
Proof. reflexivity. Qed.

Example join_with_three : join_with comma ["a"; ""; "b"]%string = "a,,b"%string.
Proof. reflexivity. Qed.

Example free_user_at_quota :
  can_create_new_email 1 taken_aliases 0 free_user = Ok false
  ∧ can_create_new_email 2 taken_aliases 0 free_user = Ok true.
Proof. split; reflexivity. Qed.

Example trial_user_one_week :
  should_upgrade utc 0 trial_user = Ok true
  ∧ should_upgrade utc 0
      (set_plan_expiration (Some (shift_days 8 0)) trial_user)
    = Ok false
  ∧ should_upgrade utc 0 (set_plan_expiration None trial_user)
    = Raise TypeError.
Proof. repeat split; reflexivity. Qed.

Example week_of_169_hours :
  shift_weeks dst_ends 1 0 = (shift_days 7 0 + hour)%Z
  ∧ shift_weeks utc 1 0 = shift_days 7 0.
Proof. split; reflexivity. Qed.

Example get_user_info_sample :
  get_user_info sample_s3_get_url sample_binding
  = Ok (<["avatar_url" := PyNone]>
          (<["email" := PyStr "a1@domain"]>
             (<["name" := PyStr "Jo"]>
                (<["email_verified" := PyBool true]>
                   (<["client" := PyStr "Demo"]>
                      (<["id" := PyInt 12]> ∅)))))).
Proof. reflexivity. Qed.

Example second_creator_refused :
  create (binding_kw 7 1) sample_table = Raise IntegrityError.
Proof. reflexivity. Qed.

(** ** Plan and quota *)

Lemma PlanEnum_eqb_eq (a b : PlanEnum) : PlanEnum_eqb a b = true ↔ a = b.
Proof. destruct a, b; simpl; split; intros H; congruence. Qed.

(** A trial user whose [plan_expiration] is null makes both evaluators
    raise: the comparison of [None] with a timestamp is a [TypeError]. *)
Lemma should_upgrade_trial_null (tz : TzLocal) (now : Arrow) (u : User) :
  plan u = trial → plan_expiration u = None →
  should_upgrade tz now u = Raise TypeError.
Proof. intros Hp He. unfold should_upgrade. rewrite Hp, He. reflexivity. Qed.

Lemma shift_weeks_offset_change (tz : TzLocal) (n : Z) (now : Arrow) :
  shift_weeks tz n now = (shift_days (7 * n) now - offset_change tz n now)%Z.
Proof. unfold shift_weeks, offset_change, shift_days. lia. Qed.

(** The offset changes by less than two days, whatever the zone. *)
Lemma offset_change_bound (tz : TzLocal) (n : Z) (now : Arrow) :
  (- (2 * microseconds_per_day) < offset_change tz n now
   < 2 * microseconds_per_day)%Z.
Proof.
  unfold offset_change.
  pose proof (utcoffset_at_bound tz now).
  pose proof (utcoffset_of_wall_bound tz
                (shift_days (7 * n) (now + utcoffset_at tz now))).
  lia.
Qed.

Lemma can_create_new_email_trial_null
    (MAX : Z) (tbl : list GenEmail) (now : Arrow) (u : User) :
  plan u = trial → plan_expiration u = None →
  can_create_new_email MAX tbl now u = Raise TypeError.
Proof.
  intros Hp He. unfold can_create_new_email, is_premium.
  rewrite Hp, He. reflexivity.
Qed.

(** C1, as the specification states it, fails: it gives a boolean for
    every user, and for a trial user whose [plan_expiration] is null (such a
    user is what [User.create] with [plan=PlanEnum.trial] and no
    [plan_expiration] returns) the method raises [TypeError] where the
    specification's evaluator answers by the alias count. *)
Lemma can_create_new_email_counterexample :
  plan trial_user_without_expiration = trial
  ∧ plan_expiration trial_user_without_expiration = None
  ∧ can_create_new_email 3 [] 5 trial_user_without_expiration
    = Raise TypeError
  ∧ canCreateAlias 3 5 trial_user_without_expiration
      (GenEmail_count_by_user [] (user_id trial_user_without_expiration))
    = true
  ∧ ¬ (∀ (MAX : Z) (tbl : list GenEmail) (now : Arrow) (u : User),
         can_create_new_email MAX tbl now u
         = Ok (canCreateAlias MAX now u
                 (GenEmail_count_by_user tbl (user_id u)))).
Proof.
  split; [reflexivity |]. split; [reflexivity |]. split; [reflexivity |].
  split; [reflexivity |].
  intros H. specialize (H 3%Z [] 5%Z trial_user_without_expiration).
  discriminate H.
Qed.

(** C1, amended. [can_create_new_email] returns true for a monthly or
    yearly plan; true for a trial plan whose [plan_expiration] is set and
    strictly after [now]; and for a free plan, or a trial plan whose
    [plan_expiration] is set and not after [now], it returns true exactly
    when the number of aliases of the user is strictly less than
    [MAX_NB_EMAIL_FREE_PLAN]. A free-plan user with
    [MAX_NB_EMAIL_FREE_PLAN - 1] aliases gets true, one with
    [MAX_NB_EMAIL_FREE_PLAN] aliases gets false. For a trial user whose
    [plan_expiration] is null the call raises [TypeError]. In every case but
    the last the result is the boolean of the specification's evaluator. *)
Theorem can_create_new_email_spec
    (MAX : Z) (tbl : list GenEmail) (now : Arrow) (u : User) :
  let count := GenEmail_count_by_user tbl (user_id u) in
  (plan u = monthly ∨ plan u = yearly →
     can_create_new_email MAX tbl now u = Ok true)
  ∧ (∀ t, plan u = trial → plan_expiration u = Some t → (now < t)%Z →
       can_create_new_email MAX tbl now u = Ok true)
  ∧ (plan u = free
     ∨ (∃ t, plan u = trial ∧ plan_expiration u = Some t ∧ (t ≤ now)%Z) →
     can_create_new_email MAX tbl now u = Ok (bool_decide (count < MAX)%Z))
  ∧ (plan u = free → count = (MAX - 1)%Z →
     can_create_new_email MAX tbl now u = Ok true)
  ∧ (plan u = free → count = MAX →
     can_create_new_email MAX tbl now u = Ok false)
  ∧ (plan u = trial → plan_expiration u = None →
     can_create_new_email MAX tbl now u = Raise TypeError)
  ∧ ((plan u = trial → plan_expiration u ≠ None) →
     can_create_new_email MAX tbl now u
     = Ok (canCreateAlias MAX now u count)).
Proof.
  intros count.
  assert (Hfree : plan u = free →
            can_create_new_email MAX tbl now u = Ok (count <? MAX)%Z).
  { intros Hp. unfold can_create_new_email, is_premium. rewrite Hp. reflexivity. }
  assert (Hdec : (count <? MAX)%Z = bool_decide (count < MAX)%Z).
  { destruct (Z.ltb_spec count MAX).
    - symmetry. apply bool_decide_eq_true. assumption.
    - symmetry. apply bool_decide_eq_false. lia. }
  repeat split.
  - intros [Hp | Hp]; unfold can_create_new_email, is_premium;
      rewrite Hp; reflexivity.
  - intros t Hp He Hlt. unfold can_create_new_email, is_premium.
    rewrite Hp, He. simpl.
    destruct (Z.ltb_spec now t); [reflexivity | lia].
  - intros [Hp | (t & Hp & He & Hle)].
    + rewrite Hfree, Hdec by assumption. reflexivity.
    + unfold can_create_new_email, is_premium. rewrite Hp, He. simpl.
      destruct (Z.ltb_spec now t); [lia |]. fold count. rewrite Hdec.
      reflexivity.
  - intros Hp Hc. rewrite Hfree by assumption. f_equal.
    apply Z.ltb_lt. lia.
  - intros Hp Hc. rewrite Hfree by assumption. f_equal.
    apply Z.ltb_ge. lia.
  - apply can_create_new_email_trial_null.
  - intros Hset. unfold can_create_new_email, is_premium, canCreateAlias.
    fold count.
    destruct (plan u), (plan_expiration u) as [t |]; simpl;
      try reflexivity; try (exfalso; apply Hset; reflexivity).
    destruct (now <? t)%Z; reflexivity.
Qed.

(** C3, as the specification states it, fails twice. It gives a boolean
    for every user, and for a trial user whose [plan_expiration] is null the
    method raises [TypeError]. And it compares with [now] plus 7 days, while
    the method compares with [arrow.now().shift(weeks=1)], a week on the
    local wall clock: in the week in which daylight saving time ends that is
    169 hours, and a trial that expires exactly 7 days of 24 hours after
    [now] is strictly before it. *)
Lemma should_upgrade_counterexample :
  should_upgrade utc 0 trial_user_without_expiration = Raise TypeError
  ∧ shouldPromptUpgrade 0 trial_user_without_expiration = false
  ∧ should_upgrade dst_ends 0 trial_user_seven_days = Ok true
  ∧ shouldPromptUpgrade 0 trial_user_seven_days = false
  ∧ ¬ (∀ (tz : TzLocal) (now : Arrow) (u : User),
         should_upgrade tz now u = Ok (shouldPromptUpgrade now u)).
Proof.
  split; [reflexivity |]. split; [reflexivity |]. split; [reflexivity |].
  split; [reflexivity |].
  intros H. specialize (H utc 0%Z trial_user_without_expiration).
  discriminate H.
Qed.

(** C3, amended. [should_upgrade] returns true for a free plan and for a
    trial plan whose [plan_expiration] is set and strictly before the
    instant one week after [now] on the local wall clock; it returns false
    for a monthly or yearly plan and for a trial plan with a later
    expiration; for a trial user whose [plan_expiration] is null it raises
    [TypeError]. The instant one week after [now] is [now] plus 7 days less
    the change of the UTC offset over that week: [now] plus 7 days when the
    offset does not change. For a trial user the answer is true when
    [plan_expiration] is 6 days from [now] and false when it is 8 days from
    [now], provided the offset changes by less than a day. *)
Theorem should_upgrade_spec (tz : TzLocal) (now : Arrow) (u : User) :
  (plan u = free → should_upgrade tz now u = Ok true)
  ∧ (∀ t, plan u = trial → plan_expiration u = Some t →
       (t < shift_weeks tz 1 now)%Z → should_upgrade tz now u = Ok true)
  ∧ (plan u = monthly ∨ plan u = yearly → should_upgrade tz now u = Ok false)
  ∧ (∀ t, plan u = trial → plan_expiration u = Some t →
       (shift_weeks tz 1 now ≤ t)%Z → should_upgrade tz now u = Ok false)
  ∧ (plan u = trial → plan_expiration u = None →
     should_upgrade tz now u = Raise TypeError)
  ∧ shift_weeks tz 1 now = (shift_days 7 now - offset_change tz 1 now)%Z
  ∧ (offset_change tz 1 now = 0%Z → shift_weeks tz 1 now = shift_days 7 now)
  ∧ ((offset_change tz 1 now < microseconds_per_day)%Z →
     plan u = trial → plan_expiration u = Some (shift_days 6 now) →
     should_upgrade tz now u = Ok true)
  ∧ ((- microseconds_per_day ≤ offset_change tz 1 now)%Z →
     plan u = trial → plan_expiration u = Some (shift_days 8 now) →
     should_upgrade tz now u = Ok false).
Proof.
  assert (Htrial : ∀ t, plan u = trial → plan_expiration u = Some t →
            should_upgrade tz now u = Ok (t <? shift_weeks tz 1 now)%Z).
  { intros t Hp He. unfold should_upgrade. rewrite Hp, He. simpl.
    destruct (t <? shift_weeks tz 1 now)%Z; reflexivity. }
  pose proof (shift_weeks_offset_change tz 1 now) as Hshift.
  replace (7 * 1)%Z with 7%Z in Hshift by lia.
  split; [| split; [| split; [| split; [| split; [| split; [| split;
    [| split]]]]]]].
  - intros Hp. unfold should_upgrade. rewrite Hp. reflexivity.
  - intros t Hp He Hlt. rewrite (Htrial t) by assumption. f_equal.
    apply Z.ltb_lt. assumption.
  - intros [Hp | Hp]; unfold should_upgrade; rewrite Hp; reflexivity.
  - intros t Hp He Hle. rewrite (Htrial t) by assumption. f_equal.
    apply Z.ltb_ge. assumption.
  - apply should_upgrade_trial_null.
  - exact Hshift.
  - intros H0. rewrite Hshift, H0. lia.
  - intros Hc Hp He. rewrite (Htrial _ Hp He). f_equal. apply Z.ltb_lt.
    rewrite Hshift. unfold shift_days. lia.
  - intros Hc Hp He. rewrite (Htrial _ Hp He). f_equal. apply Z.ltb_ge.
    rewrite Hshift. unfold shift_days. lia.
Qed.

(** ** The relation between [plan] and [plan_expiration] *)

(** C7, as the specification states it, fails: [User.create] with
    [plan=PlanEnum.trial] and no [plan_expiration] yields a trial user whose
    [plan_expiration] is null, and moving a trial user to the monthly plan
    leaves its [plan_expiration] set. *)
Lemma plan_expiration_invariant_counterexample :
  ¬ plan_expiration_invariant (User_create 1 trial_without_expiration_kw)
  ∧ plan_expiration_invariant trial_user
  ∧ ¬ plan_expiration_invariant (set_plan monthly trial_user).
Proof.
  unfold plan_expiration_invariant. simpl. split; [| split].
  - intros [_ H]. destruct (H eq_refl) as [t Ht]. discriminate.
  - split; [reflexivity | eexists; reflexivity].
  - intros [H _].
    assert (Hs : is_Some (Some 1000000%Z)) by (eexists; reflexivity).
    specialize (H Hs). discriminate.
Qed.

(** C7, amended. A user created without [plan] and without
    [plan_expiration] has the free plan and a null [plan_expiration], so the
    relation holds of it. In general [User.create] stores the two values it
    is given, and an assignment to one column leaves the other as it is: the
    relation holds afterwards exactly when the values satisfy it. *)
Theorem User_create_plan_expiration (new_id : Z) (kw : UserKw) (u : User)
    (p : PlanEnum) (e : option Arrow) :
  (kw_plan kw = None → kw_plan_expiration kw = None →
     plan (User_create new_id kw) = free
     ∧ plan_expiration (User_create new_id kw) = None
     ∧ plan_expiration_invariant (User_create new_id kw))
  ∧ plan (User_create new_id kw) = default free (kw_plan kw)
  ∧ plan_expiration (User_create new_id kw) = kw_plan_expiration kw
  ∧ (plan_expiration_invariant (User_create new_id kw)
     ↔ (is_Some (kw_plan_expiration kw) ↔ default free (kw_plan kw) = trial))
  ∧ (plan_expiration_invariant (set_plan p u)
     ↔ (is_Some (plan_expiration u) ↔ p = trial))
  ∧ (plan_expiration_invariant (set_plan_expiration e u)
     ↔ (is_Some e ↔ plan u = trial)).
Proof.
  unfold plan_expiration_invariant. simpl.
  split; [| tauto].
  intros Hp He. rewrite Hp, He. simpl.
  split; [reflexivity |]. split; [reflexivity |].
  split; [intros [t Ht] |]; discriminate.
Qed.

(** ** Default image URLs *)

Lemma truthy_int_None_fmap {A : Type} (f : A → Z) (o : option A) :
  f <$> o = None → truthy_int (f <$> o) = false.
Proof. intros H. rewrite H. reflexivity. Qed.

(** C8. A user without [profile_picture_id] gets the gravatar URL built from
    the md5 digest of the user's e-mail address; a client without [icon_id]
    gets the static default icon URL. *)
Theorem default_image_urls
    (s3_get_url md5_hexdigest : string → string) (URL : string) :
  (∀ u : User, profile_picture_id u = None →
     profile_picture_url s3_get_url md5_hexdigest u
     = Ok ("https://www.gravatar.com/avatar/" +:+ md5_hexdigest (user_email u)))
  ∧ (∀ c : Client, icon_id c = None →
       get_icon_url s3_get_url URL c = Ok (URL +:+ "/static/default-icon.svg")).
Proof.
  split.
  - intros u H. unfold profile_picture_url.
    unfold profile_picture_id in *. rewrite truthy_int_None_fmap by assumption.
    reflexivity.
  - intros c H. unfold get_icon_url.
    unfold icon_id in *. rewrite truthy_int_None_fmap by assumption.
    reflexivity.
Qed.

(** ** Promo codes *)

Section SplitJoin.

Variable sep : ascii.

Lemma split_on_not_nil (s : string) : split_on sep s ≠ [].
Proof.
  destruct s as [| c s]; simpl; [discriminate |].
  destruct (Ascii.eqb c sep); [discriminate |].
  destruct (split_on sep s); discriminate.
Qed.

(** No piece of a split contains the separator. *)
Lemma split_on_pieces (s : string) :
  Forall (fun x => contains_char sep x = false) (split_on sep s).
Proof.
  induction s as [| c s IH]; simpl.
  - repeat constructor.
  - destruct (Ascii.eqb c sep) eqn:Hc.
    + constructor; [reflexivity | assumption].
    + destruct (split_on sep s) as [| h t].
      * repeat constructor. simpl. rewrite Hc. reflexivity.
      * inversion IH as [| ? ? Hh Ht]; subst.
        constructor; [| assumption]. simpl. rewrite Hc. assumption.
Qed.

Lemma split_on_piece (x : string) :
  contains_char sep x = false → split_on sep x = [x].
Proof.
  induction x as [| c x IH]; simpl; [reflexivity |].
  intros H. apply orb_false_iff in H as [Hc Hx].
  rewrite Hc, (IH Hx). reflexivity.
Qed.

Lemma split_on_append (x rest : string) :
  contains_char sep x = false →
  split_on sep (String.append x (String sep rest)) = x :: split_on sep rest.
Proof.
  induction x as [| c x IH]; simpl.
  - intros _. rewrite Ascii.eqb_refl. reflexivity.
  - intros H. apply orb_false_iff in H as [Hc Hx].
    rewrite Hc, (IH Hx). reflexivity.
Qed.

(** Splitting undoes joining, for a list that is not empty and whose
    elements do not contain the separator. *)
Lemma split_on_join_with (l : list string) :
  l ≠ [] → Forall (fun x => contains_char sep x = false) l →
  split_on sep (join_with sep l) = l.
Proof.
  induction l as [| x l IH]; [congruence |].
  intros _ Hall. inversion Hall as [| ? ? Hx Hl]; subst.
  destruct l as [| y l].
  - simpl. apply split_on_piece. assumption.
  - change (join_with sep (x :: y :: l))
      with (String.append x (String sep (join_with sep (y :: l)))).
    rewrite split_on_append by assumption.
    rewrite IH by (assumption || discriminate). reflexivity.
Qed.

Lemma join_with_snoc_not_empty (l : list string) (c : string) :
  c ≠ EmptyString → join_with sep (l ++ [c]) ≠ EmptyString.
Proof.
  intros Hc. destruct l as [| x l]; simpl; [assumption |].
  destruct (l ++ [c]) eqn:E.
  - destruct l; discriminate.
  - destruct x; discriminate.
Qed.

End SplitJoin.

Lemma truthy_str_Some (s : string) :
  s ≠ EmptyString → truthy_str (Some s) = true.
Proof. destruct s; [congruence | reflexivity]. Qed.

Lemma get_promo_codes_pieces (u : User) :
  Forall (fun x => contains_char comma x = false) (get_promo_codes u).
Proof.
  unfold get_promo_codes.
  destruct (promo_codes u) as [[| a s] |]; simpl; try constructor.
  apply (split_on_pieces comma (String a s)).
Qed.

(** C10. When [promo_codes] is null or empty, [get_promo_codes] returns the
    empty list; and after [save_new_promo_code c], for a code [c] that is not
    empty and contains no comma, [get_promo_codes] returns the previous list
    with [c] appended at the end. *)
Theorem promo_codes_round_trip (u : User) :
  (promo_codes u = None ∨ promo_codes u = Some EmptyString →
     get_promo_codes u = [])
  ∧ (∀ c : string, c ≠ EmptyString → contains_char comma c = false →
       get_promo_codes (save_new_promo_code c u) = get_promo_codes u ++ [c]).
Proof.
  split.
  - intros [H | H]; unfold get_promo_codes; rewrite H; reflexivity.
  - intros c Hne Hc.
    unfold save_new_promo_code.
    set (l := get_promo_codes u ++ [c]).
    unfold get_promo_codes at 1. unfold set_promo_codes. cbn [promo_codes].
    rewrite truthy_str_Some by (apply join_with_snoc_not_empty; assumption).
    cbn [negb]. apply split_on_join_with.
    + subst l. destruct (get_promo_codes u); discriminate.
    + subst l. apply Forall_app. split; [apply get_promo_codes_pieces |].
      constructor; [assumption | constructor].
Qed.

(** ** The scope projection *)

Section ProjectionFacts.

Variable s3_get_url : string → string.

Lemma Scope_value_inj (a b : Scope) : Scope_value a = Scope_value b → a = b.
Proof. destruct a, b; simpl; intros H; congruence. Qed.


(** One iteration never raises: it binds the key of the scope to the
    attribute the scope discloses. *)
Lemma project_scope_ok (cu : ClientUser) (res : gmap string PyValue)
    (scope : Scope) :
  project_scope s3_get_url cu res scope
  = Ok (<[Scope_value scope := disclosed s3_get_url cu scope]> res).
Proof.
  unfold project_scope, disclosed, profile_picture_id, gen_email_id, references.
  destruct scope; simpl.
  - reflexivity.
  - destruct (cu_gen_email cu) as [g |]; simpl; [| reflexivity].
    destruct (gen_email_row_id g =? 0)%Z; reflexivity.
  - destruct (profile_picture (cu_user cu)) as [f |]; simpl; [| reflexivity].
    destruct (file_id f =? 0)%Z; reflexivity.
Qed.

Lemma for_scopes_ok (cu : ClientUser) (scopes : list Scope) :
  ∀ res, for_scopes s3_get_url cu scopes res
         = Ok (project_all s3_get_url cu scopes res).
Proof.
  induction scopes as [| s rest IH]; intros res; simpl; [reflexivity |].
  rewrite project_scope_ok. simpl. apply IH.
Qed.

(** A key that is the key of no iterated scope keeps its binding. *)
Lemma project_all_other (cu : ClientUser) (scopes : list Scope) (k : string) :
  (∀ s, s ∈ scopes → Scope_value s ≠ k) →
  ∀ res, project_all s3_get_url cu scopes res !! k = res !! k.
Proof.
  unfold project_all.
  induction scopes as [| s rest IH]; intros Hk res; simpl; [reflexivity |].
  rewrite IH.
  - apply lookup_insert_ne. apply Hk. left.
  - intros s' Hs'. apply Hk. right. assumption.
Qed.

(** The key of an iterated scope is bound to what the scope discloses. *)
Lemma project_all_scope (cu : ClientUser) (scopes : list Scope) (s : Scope) :
  s ∈ scopes →
  ∀ res, project_all s3_get_url cu scopes res !! Scope_value s
         = Some (disclosed s3_get_url cu s).
Proof.
  induction scopes as [| s0 rest IH]; intros Hin res.
  - inversion Hin.
  - destruct (decide (s ∈ rest)) as [Hrest | Hrest].
    + apply (IH Hrest).
    + apply elem_of_cons in Hin as [-> | Hin]; [| contradiction].
      change (project_all s3_get_url cu (s0 :: rest) res)
        with (project_all s3_get_url cu rest
                (<[Scope_value s0 := disclosed s3_get_url cu s0]> res)).
      rewrite project_all_other.
      * apply lookup_insert_eq.
      * intros s' Hs' Heq. apply Scope_value_inj in Heq. subst s'.
        contradiction.
Qed.

End ProjectionFacts.

Lemma project_all_dom (s3_get_url : string → string) (cu : ClientUser)
    (scopes : list Scope) :
  ∀ res, dom (project_all s3_get_url cu scopes res)
         = dom res ∪ list_to_set (Scope_value <$> scopes).
Proof.
  unfold project_all.
  induction scopes as [| s rest IH]; intros res; simpl.
  - set_solver.
  - rewrite IH, dom_insert_L. set_solver.
Qed.

Lemma base_info_dom (cu : ClientUser) :
  dom (base_info cu) = {["id"; "client"; "email_verified"]}.
Proof. unfold base_info. rewrite !dom_insert_L. set_solver. Qed.

Lemma get_user_info_scopes_ok (s3_get_url : string → string)
    (scopes : list Scope) (cu : ClientUser) :
  get_user_info_scopes s3_get_url scopes cu
  = Ok (project_all s3_get_url cu scopes (base_info cu)).
Proof. unfold get_user_info_scopes. apply for_scopes_ok. Qed.



(** X19. The method itself iterates over [get_scopes], which is the same
    list for every client: for every binding it returns a dictionary, and
    the keys of the dictionary are exactly [id], [client], [email_verified],
    [name], [email] and [avatar_url]. *)
Lemma get_user_info_keys (s3_get_url : string → string) (cu : ClientUser) :
  ∃ res : gmap string PyValue,
    get_user_info s3_get_url cu = Ok res
    ∧ dom res = {["id"; "client"; "email_verified"; "name"; "email";
                  "avatar_url"]}.
Proof.
  eexists. split; [apply get_user_info_scopes_ok |].
  rewrite project_all_dom, base_info_dom. simpl. set_solver.
Qed.

(** A related row whose primary key is [0] is treated as absent. *)
Lemma get_email_zero_key (cu : ClientUser) (g : GenEmail) :
  cu_gen_email cu = Some g → gen_email_row_id g = 0%Z →
  get_email cu = Ok (user_email (cu_user cu)).
Proof.
  intros Hg Hz. unfold get_email, gen_email_id. rewrite Hg. simpl.
  rewrite Hz. reflexivity.
Qed.

(** C9. When the granted scopes contain the email scope, [get_email]
    returns the value [get_user_info] binds to the key [email]: the address
    of the alias when [gen_email_id] is set, the user's own address
    otherwise. *)
Theorem get_email_agrees_with_get_user_info (s3_get_url : string → string)
    (scopes : list Scope) (cu : ClientUser) :
  EMAIL ∈ scopes →
  ∃ (res : gmap string PyValue) (e : string),
    get_user_info_scopes s3_get_url scopes cu = Ok res
    ∧ get_email cu = Ok e
    ∧ res !! "email" = Some (PyStr e)
    ∧ (∀ g, cu_gen_email cu = Some g → gen_email_row_id g ≠ 0%Z →
         e = gen_email_email g)
    ∧ (cu_gen_email cu = None → e = user_email (cu_user cu)).
Proof.
  intros H.
  exists (project_all s3_get_url cu scopes (base_info cu)).
  pose proof (project_all_scope s3_get_url cu scopes EMAIL H (base_info cu))
    as Hres.
  simpl in Hres. unfold references in Hres.
  unfold get_email, gen_email_id.
  destruct (cu_gen_email cu) as [g |]; simpl.
  - destruct (Z.eqb_spec (gen_email_row_id g) 0) as [Hz | Hz]; simpl.
    + exists (user_email (cu_user cu)).
      split; [apply get_user_info_scopes_ok |].
      split; [reflexivity |]. split; [exact Hres |].
      split; [| discriminate].
      intros g' Hg' Hnz. injection Hg' as <-. contradiction.
    + exists (gen_email_email g).
      split; [apply get_user_info_scopes_ok |].
      split; [reflexivity |]. split; [exact Hres |].
      split; [| discriminate].
      intros g' Hg' _. injection Hg' as <-. reflexivity.
  - exists (user_email (cu_user cu)).
    split; [apply get_user_info_scopes_ok |].
    split; [reflexivity |]. split; [exact Hres |].
    split; [discriminate | reflexivity].
Qed.

(** ** Identifier generation *)

Section GeneratorFacts.

Variable EMAIL_DOMAIN : string.
Variable convert_to_id : string → string.

(** After [n] collisions the first free candidate is returned, whatever
    [n] is, provided the interpreter allows [n + 1] frames. *)
Lemma generate_email_first_free (tbl : list GenEmail)
    (random_words : nat → string) (n : nat) :
  ∀ (depth drawn : nat),
    n < depth →
    (∀ i, i < n →
       GenEmail_get_by_email tbl
         (email_candidate EMAIL_DOMAIN (random_words (drawn + i))) ≠ None) →
    GenEmail_get_by_email tbl
      (email_candidate EMAIL_DOMAIN (random_words (drawn + n))) = None →
    generate_email EMAIL_DOMAIN depth tbl random_words drawn
    = Ok (email_candidate EMAIL_DOMAIN (random_words (drawn + n)),
          S (drawn + n)).
Proof.
  induction n as [| n IH]; intros depth drawn Hd Htaken Hfree;
    (destruct depth as [| depth]; [lia |]); cbn [generate_email];
    fold (email_candidate EMAIL_DOMAIN (random_words drawn)).
  - rewrite Nat.add_0_r in Hfree. rewrite Hfree. cbn [is_none].
    rewrite Nat.add_0_r. reflexivity.
  - specialize (Htaken 0 ltac:(lia)) as H0. rewrite Nat.add_0_r in H0.
    destruct (GenEmail_get_by_email tbl
              (email_candidate EMAIL_DOMAIN (random_words drawn))) eqn:E;
      [| congruence].
    cbn [is_none].
    rewrite (IH depth (S drawn)).
    + replace (S drawn + n) with (drawn + S n) by lia. reflexivity.
    + lia.
    + intros i Hi. replace (S drawn + i) with (drawn + S i) by lia.
      apply Htaken. lia.
    + replace (S drawn + n) with (drawn + S n) by lia. assumption.
Qed.

(** When every draw collides, the recursion ends with [RecursionError]. *)
Lemma generate_email_exhausted (tbl : list GenEmail)
    (random_words : nat → string) (depth : nat) :
  ∀ drawn,
    (∀ i, i < depth →
       GenEmail_get_by_email tbl
         (email_candidate EMAIL_DOMAIN (random_words (drawn + i))) ≠ None) →
    generate_email EMAIL_DOMAIN depth tbl random_words drawn
    = Raise RecursionError.
Proof.
  induction depth as [| depth IH]; intros drawn Htaken;
    cbn [generate_email]; [reflexivity |].
  fold (email_candidate EMAIL_DOMAIN (random_words drawn)).
  specialize (Htaken 0 ltac:(lia)) as H0. rewrite Nat.add_0_r in H0.
  destruct (GenEmail_get_by_email tbl
              (email_candidate EMAIL_DOMAIN (random_words drawn))) eqn:E;
      [| congruence].
    cbn [is_none].
  apply IH. intros i Hi. replace (S drawn + i) with (drawn + S i) by lia.
  apply Htaken. lia.
Qed.

(** A returned address is unknown to the table. *)
Lemma generate_email_fresh (tbl : list GenEmail)
    (random_words : nat → string) (depth : nat) :
  ∀ drawn e drawn',
    generate_email EMAIL_DOMAIN depth tbl random_words drawn
    = Ok (e, drawn') →
    GenEmail_get_by_email tbl e = None.
Proof.
  induction depth as [| depth IH]; intros drawn e drawn'; simpl;
    [discriminate |].
  destruct (GenEmail_get_by_email tbl _) eqn:E; simpl.
  - apply IH.
  - intros H. injection H as <- _. assumption.
Qed.

Lemma generate_oauth_client_id_first_free (tbl : list Client)
    (random_string : nat → string) (client_name : string) (n : nat) :
  ∀ (depth drawn : nat),
    n < depth →
    (∀ i, i < n →
       Client_get_by_oauth_client_id tbl
         (client_id_candidate convert_to_id client_name
            (random_string (drawn + i))) ≠ None) →
    Client_get_by_oauth_client_id tbl
      (client_id_candidate convert_to_id client_name
         (random_string (drawn + n))) = None →
    generate_oauth_client_id convert_to_id depth tbl random_string drawn
      client_name
    = Ok (client_id_candidate convert_to_id client_name
            (random_string (drawn + n)),
          S (drawn + n)).
Proof.
  induction n as [| n IH]; intros depth drawn Hd Htaken Hfree;
    (destruct depth as [| depth]; [lia |]); cbn [generate_oauth_client_id];
    fold (client_id_candidate convert_to_id client_name
            (random_string drawn)).
  - rewrite Nat.add_0_r in Hfree. rewrite Hfree. cbn [is_none].
    rewrite Nat.add_0_r. reflexivity.
  - specialize (Htaken 0 ltac:(lia)) as H0. rewrite Nat.add_0_r in H0.
    destruct (Client_get_by_oauth_client_id tbl
                (client_id_candidate convert_to_id client_name
                   (random_string drawn))) eqn:E; [| congruence].
    cbn [is_none]. rewrite (IH depth (S drawn)).
    + replace (S drawn + n) with (drawn + S n) by lia. reflexivity.
    + lia.
    + intros i Hi. replace (S drawn + i) with (drawn + S i) by lia.
      apply Htaken. lia.
    + replace (S drawn + n) with (drawn + S n) by lia. assumption.
Qed.

Lemma generate_oauth_client_id_exhausted (tbl : list Client)
    (random_string : nat → string) (client_name : string) (depth : nat) :
  ∀ drawn,
    (∀ i, i < depth →
       Client_get_by_oauth_client_id tbl
         (client_id_candidate convert_to_id client_name
            (random_string (drawn + i))) ≠ None) →
    generate_oauth_client_id convert_to_id depth tbl random_string drawn
      client_name
    = Raise RecursionError.
Proof.
  induction depth as [| depth IH]; intros drawn Htaken;
    cbn [generate_oauth_client_id]; [reflexivity |].
  fold (client_id_candidate convert_to_id client_name
          (random_string drawn)).
  specialize (Htaken 0 ltac:(lia)) as H0. rewrite Nat.add_0_r in H0.
  destruct (Client_get_by_oauth_client_id tbl
              (client_id_candidate convert_to_id client_name
                 (random_string drawn))) eqn:E; [| congruence].
  cbn [is_none]. apply IH. intros i Hi.
  replace (S drawn + i) with (drawn + S i) by lia. apply Htaken. lia.
Qed.

End GeneratorFacts.

Lemma collisions_taken (n i : nat) :
  i < n →
  GenEmail_get_by_email taken_aliases
    (email_candidate "sl.co" (collisions n i)) ≠ None.
Proof.
  intros Hi. unfold collisions.
  destruct (Nat.ltb_spec i n); [| lia]. vm_compute. discriminate.
Qed.

Lemma collisions_free (n i : nat) :
  n ≤ i →
  GenEmail_get_by_email taken_aliases
    (email_candidate "sl.co" (collisions n i)) = None.
Proof.
  intros Hi. unfold collisions.
  destruct (Nat.ltb_spec i n); [lia |]. vm_compute. reflexivity.
Qed.

(** C5, as the specification states it, fails. After eleven collisions the
    call neither stops at a cap of ten nor signals an exhaustion of its own:
    it draws a twelfth candidate and returns it. When every draw collides the
    call ends with the interpreter's [RecursionError]. No number bounds the
    retries of every call. *)
Lemma generation_retry_cap_counterexample :
  generate_email "sl.co" 1000 taken_aliases (collisions 11) 0
  = Ok ("free@sl.co", 12)
  ∧ generate_email "sl.co" 1000 taken_aliases (fun _ => "taken") 0
    = Raise RecursionError
  ∧ ¬ ∃ cap : nat, retries_capped cap.
Proof.
  split; [vm_compute; reflexivity |].
  split; [vm_compute; reflexivity |].
  intros [cap Hcap].
  pose proof (generate_email_first_free "sl.co" taken_aliases
                (collisions (S cap)) (S cap) (S (S cap)) 0) as H.
  specialize (Hcap "sl.co" (S (S cap)) taken_aliases (collisions (S cap))
                (email_candidate "sl.co" (collisions (S cap) (0 + S cap)))
                (S (0 + S cap))).
  assert (Hle : S (0 + S cap) ≤ S cap); [| lia].
  apply Hcap. apply H.
  - lia.
  - intros i Hi. apply collisions_taken. assumption.
  - apply collisions_free. lia.
Qed.

(** C5, amended. [generate_email] and [generate_oauth_client_id] draw again
    on every collision, with no cap of their own on the number of retries:
    whatever the number [n] of colliding draws, the call returns the first
    candidate the table does not hold, having consumed [n + 1] draws,
    provided the interpreter allows [n + 1] frames; and when every draw the
    interpreter's recursion limit allows collides, the call raises
    [RecursionError]. *)
Theorem generators_retry_until_free (EMAIL_DOMAIN : string)
    (convert_to_id : string → string) (emails : list GenEmail)
    (clients : list Client) (random_words random_string : nat → string)
    (client_name : string) (n depth drawn : nat) :
  (n < depth →
   (∀ i, i < n →
      GenEmail_get_by_email emails
        (email_candidate EMAIL_DOMAIN (random_words (drawn + i))) ≠ None) →
   GenEmail_get_by_email emails
     (email_candidate EMAIL_DOMAIN (random_words (drawn + n))) = None →
   generate_email EMAIL_DOMAIN depth emails random_words drawn
   = Ok (email_candidate EMAIL_DOMAIN (random_words (drawn + n)),
         S (drawn + n)))
  ∧ (n < depth →
     (∀ i, i < n →
        Client_get_by_oauth_client_id clients
          (client_id_candidate convert_to_id client_name
             (random_string (drawn + i))) ≠ None) →
     Client_get_by_oauth_client_id clients
       (client_id_candidate convert_to_id client_name
          (random_string (drawn + n))) = None →
     generate_oauth_client_id convert_to_id depth clients random_string drawn
       client_name
     = Ok (client_id_candidate convert_to_id client_name
             (random_string (drawn + n)),
           S (drawn + n)))
  ∧ ((∀ i, i < depth →
        GenEmail_get_by_email emails
          (email_candidate EMAIL_DOMAIN (random_words (drawn + i))) ≠ None) →
     generate_email EMAIL_DOMAIN depth emails random_words drawn
     = Raise RecursionError)
  ∧ ((∀ i, i < depth →
        Client_get_by_oauth_client_id clients
          (client_id_candidate convert_to_id client_name
             (random_string (drawn + i))) ≠ None) →
     generate_oauth_client_id convert_to_id depth clients random_string drawn
       client_name
     = Raise RecursionError).
Proof.
  split; [apply generate_email_first_free |].
  split; [apply generate_oauth_client_id_first_free |].
  split; [apply generate_email_exhausted |].
  apply generate_oauth_client_id_exhausted.
Qed.

(** ** Consent bindings *)

Lemma get_by_binding_kw (client user : Z) (t : Table ClientUserRow) :
  get_by (binding_kw client user) t = find (same_pair user client) (rows t).
Proof.
  unfold get_by. simpl. induction (rows t) as [| r l IH]; simpl; [reflexivity |].
  rewrite andb_true_r, IH. reflexivity.
Qed.

Lemma find_filter_head {A : Type} (f : A → bool) (l : list A) (x : A) :
  find f l = Some x → ∃ rest, List.filter f l = x :: rest.
Proof.
  induction l as [| a l IH]; simpl; [discriminate |].
  destruct (f a) eqn:E.
  - intros H. injection H as ->. eexists. reflexivity.
  - assumption.
Qed.

Lemma find_none_filter {A : Type} (f : A → bool) (l : list A) :
  find f l = None → List.filter f l = [].
Proof.
  induction l as [| a l IH]; simpl; [reflexivity |].
  destruct (f a); [discriminate | assumption].
Qed.

Lemma filter_nil_existsb {A : Type} (f : A → bool) (l : list A) :
  List.filter f l = [] → existsb f l = false.
Proof.
  induction l as [| a l IH]; simpl; [reflexivity |].
  destruct (f a); [discriminate | assumption].
Qed.

Lemma existsb_false_filter {A : Type} (f : A → bool) (l : list A) :
  existsb f l = false → List.filter f l = [].
Proof.
  induction l as [| a l IH]; simpl; [reflexivity |].
  destruct (f a); [discriminate | assumption].
Qed.

Lemma find_app_none {A : Type} (f : A → bool) (l : list A) (x : A) :
  find f l = None → f x = true → find f (l ++ [x]) = Some x.
Proof.
  induction l as [| a l IH]; simpl.
  - intros _ ->. reflexivity.
  - destruct (f a); [discriminate | assumption].
Qed.

Lemma length_filter_filter {A : Type} (f g : A → bool) (l : list A) :
  length (List.filter f (List.filter g l)) ≤ length (List.filter f l).
Proof.
  induction l as [| a l IH]; simpl; [lia |].
  destruct (g a), (f a) eqn:E; simpl; rewrite ?E; simpl; lia.
Qed.

Lemma same_pair_eq (user client : Z) (r : ClientUserRow) :
  same_pair user client r = true →
  cur_user_id r = user ∧ cur_client_id r = client.
Proof.
  unfold same_pair. intros H. apply andb_true_iff in H as [H1 H2].
  apply Z.eqb_eq in H1, H2. split; assumption.
Qed.

Lemma session_add_at_most_one (r : ClientUserRow) (t t' : Table ClientUserRow) :
  at_most_one_binding t → session_add r t = Ok t' → at_most_one_binding t'.
Proof.
  unfold session_add, at_most_one_binding, bindings_of. simpl.
  intros Hinv Hadd client user.
  destruct (uq_client_user (rows t) r) eqn:Huq; [| discriminate].
  injection Hadd as <-. simpl.
  rewrite List.filter_app, length_app. simpl.
  destruct (same_pair user client r) eqn:Hr; simpl.
  - apply same_pair_eq in Hr as [<- <-].
    unfold uq_client_user in Huq. apply negb_true_iff in Huq.
    rewrite (existsb_false_filter _ _ Huq). simpl. lia.
  - specialize (Hinv client user). lia.
Qed.

Lemma table_step_at_most_one (t t' : Table ClientUserRow) :
  at_most_one_binding t → table_step t t' → at_most_one_binding t'.
Proof.
  intros Hinv Hstep.
  destruct Hstep as [kw t r t' H | kw t r t' H | backend obj_id t].
  - unfold get_or_create in H. destruct (get_by kw t).
    + injection H as _ <-. assumption.
    + destruct (session_add _ t) as [t'' |] eqn:Hadd; simpl in H;
        [| discriminate].
      injection H as _ <-. eapply session_add_at_most_one; eassumption.
  - unfold create in H.
    destruct (session_add _ t) as [t'' |] eqn:Hadd; simpl in H;
      [| discriminate].
    injection H as _ <-. eapply session_add_at_most_one; eassumption.
  - intros client user. unfold bindings_of, delete. simpl.
    etransitivity; [apply length_filter_filter | apply Hinv].
Qed.

Lemma reachable_at_most_one (t : Table ClientUserRow) :
  reachable t → at_most_one_binding t.
Proof.
  unfold reachable. intros H.
  revert t H. apply (rtc_ind_r (R := table_step) at_most_one_binding).
  - intros client user. simpl. lia.
  - intros t1 t2 _ Hstep Hinv. eapply table_step_at_most_one; eassumption.
Qed.

(** C6. In every reachable table there is at most one binding for a pair
    of a client and a user, and two [get_or_create] calls for the same
    client and user yield the same row, hence the same binding id: the
    second call finds the row of the first and leaves the table as it is.
    An insertion of a second row for the pair is refused by the constraint
    [uq_client_user]. *)
Theorem binding_creation_idempotent (t : Table ClientUserRow) :
  reachable t →
  at_most_one_binding t
  ∧ ∀ client user : Z, ∃ (r : ClientUserRow) (t1 : Table ClientUserRow),
      get_or_create (binding_kw client user) t = Ok (r, t1)
      ∧ get_or_create (binding_kw client user) t1 = Ok (r, t1)
      ∧ bindings_of client user t1 = [r]
      ∧ reachable t1
      ∧ ∀ g, create {| kw_user_id := user;
                       kw_client_id := client;
                       kw_gen_email_id := g |} t1
             = Raise IntegrityError.
Proof.
  intros Hreach.
  pose proof (reachable_at_most_one t Hreach) as Hinv.
  split; [assumption |].
  intros client user.
  assert (Hrefused : ∀ (r : ClientUserRow) (t1 : Table ClientUserRow),
            bindings_of client user t1 = [r] →
            ∀ g, create {| kw_user_id := user;
                           kw_client_id := client;
                           kw_gen_email_id := g |} t1
                 = Raise IntegrityError).
  { intros r t1 Hb g. unfold create, session_add. simpl.
    unfold uq_client_user. simpl.
    destruct (existsb (same_pair user client) (rows t1)) eqn:E;
      [reflexivity |].
    apply existsb_false_filter in E. unfold bindings_of in Hb.
    rewrite E in Hb. discriminate. }
  destruct (get_by (binding_kw client user) t) as [r |] eqn:Hget.
  - exists r, t.
    assert (Hb : bindings_of client user t = [r]).
    { rewrite get_by_binding_kw in Hget.
      destruct (find_filter_head _ _ _ Hget) as [rest Hrest].
      specialize (Hinv client user). unfold bindings_of in *.
      rewrite Hrest in *. destruct rest; [reflexivity | simpl in Hinv; lia]. }
    unfold get_or_create. rewrite Hget.
    repeat split; try assumption. apply (Hrefused r t Hb).
  - set (r := construct (next_id t) (binding_kw client user)).
    set (t1 := {| rows := rows t ++ [r]; next_id := (next_id t + 1)%Z |}).
    assert (Hnone : List.filter (same_pair user client) (rows t) = []).
    { apply find_none_filter. rewrite <- get_by_binding_kw. assumption. }
    assert (Hr : same_pair user client r = true).
    { unfold same_pair, r. simpl. rewrite !Z.eqb_refl. reflexivity. }
    assert (Hfirst : get_or_create (binding_kw client user) t = Ok (r, t1)).
    { unfold get_or_create. rewrite Hget. fold r.
      unfold session_add. simpl. unfold uq_client_user. simpl.
      rewrite (filter_nil_existsb _ _ Hnone). reflexivity. }
    assert (Hb : bindings_of client user t1 = [r]).
    { unfold bindings_of, t1. simpl.
      rewrite List.filter_app, Hnone. simpl. rewrite Hr. reflexivity. }
    exists r, t1.
    split; [exact Hfirst |].
    split.
    { unfold get_or_create. rewrite get_by_binding_kw. unfold t1 at 1. simpl.
      rewrite (find_app_none (same_pair user client) (rows t) r);
        [reflexivity | | assumption].
      rewrite <- get_by_binding_kw. assumption. }
    split; [exact Hb |].
    split; [| apply (Hrefused r t1 Hb)].
    unfold reachable in *. eapply rtc_r; [exact Hreach |].
    eapply step_get_or_create. exact Hfirst.
Qed.

(** ** Authorization codes *)

(** C4. An authorization code is single-use. When an exchange issues an
    access token, the token carries the scope of the code and the code is
    gone from the table in the state that holds the token; every later
    exchange that presents the same code, at any time and with any
    credentials, is refused with [InvalidGrant], issues no token and leaves
    the state as it is. *)
Theorem authorization_code_single_use (AUTH_CODE_TTL : Z) (now : Arrow)
    (access_token : string) (req : ExchangeRequest) (st st' : Issuer)
    (tok : OauthToken) :
  exchange AUTH_CODE_TTL now access_token req st = Issued tok st' →
  (∃ ac, iss_codes st !! req_code req = Some ac
         ∧ tok_scope tok = ac_scope ac
         ∧ tok_client_id tok = ac_client_id ac
         ∧ tok_user_id tok = ac_user_id ac)
  ∧ iss_tokens st' = iss_tokens st ++ [tok]
  ∧ iss_codes st' !! req_code req = None
  ∧ ∀ (now' : Arrow) (access_token' : string) (req' : ExchangeRequest),
      req_code req' = req_code req →
      let second := exchange AUTH_CODE_TTL now' access_token' req' st' in
      second = Refused InvalidGrant
      ∧ issued_token second = None
      ∧ iss_tokens (state_after st' second) = iss_tokens st ++ [tok].
Proof.
  unfold exchange. intros H.
  destruct (iss_codes st !! req_code req) as [ac |] eqn:Hac; [| discriminate].
  destruct (find_client req (iss_clients st)) as [client |]; [| discriminate].
  destruct (negb (ac_client_id ac =? client_row_id client)%Z); [discriminate |].
  destruct (code_expired AUTH_CODE_TTL now ac); [discriminate |].
  destruct (negb (option_string_eqb (ac_redirect_uri ac) (req_redirect_uri req)));
    [discriminate |].
  injection H as <- <-. simpl.
  split; [exists ac; repeat split; reflexivity |].
  split; [reflexivity |].
  split; [apply lookup_delete_eq |].
  intros now' access_token' req' Hcode.
  rewrite Hcode, lookup_delete_eq. simpl. repeat split; reflexivity.
Qed.

(** * The properties at concrete rows *)

Lemma can_create_new_email_spec_witness :
  plan trial_user = trial
  ∧ plan_expiration trial_user = Some 1000000%Z
  ∧ (5 < 1000000)%Z
  ∧ can_create_new_email 3 [] 5 trial_user = Ok true.
Proof.
  split; [reflexivity |]. split; [reflexivity |]. split; [lia |].
  apply (proj1 (proj2 (can_create_new_email_spec 3 [] 5 trial_user))
           1000000%Z); [reflexivity | reflexivity | lia].
Defined.

Lemma should_upgrade_spec_witness :
  plan trial_user = trial
  ∧ plan_expiration trial_user = Some 1000000%Z
  ∧ (1000000 < shift_weeks utc 1 5)%Z
  ∧ should_upgrade utc 5 trial_user = Ok true.
Proof.
  assert (Hlt : (1000000 < shift_weeks utc 1 5)%Z) by (vm_compute; reflexivity).
  split; [reflexivity |]. split; [reflexivity |]. split; [exact Hlt |].
  apply (proj1 (proj2 (should_upgrade_spec utc 5 trial_user)) 1000000%Z);
    [reflexivity | reflexivity | exact Hlt].
Defined.


Lemma authorization_code_single_use_witness :
  exchange 600000000 1000 "t0ken" sample_request sample_issuer
  = Issued sample_token sample_issuer_after
  ∧ exchange 600000000 2000 "t0ken2" sample_request sample_issuer_after
    = Refused InvalidGrant.
Proof.
  assert (H : exchange 600000000 1000 "t0ken" sample_request sample_issuer
              = Issued sample_token sample_issuer_after)
    by (vm_compute; reflexivity).
  split; [exact H |].
  apply (proj2 (proj2 (proj2
           (authorization_code_single_use 600000000 1000 "t0ken"
              sample_request sample_issuer sample_issuer_after sample_token H)))
           2000%Z "t0ken2" sample_request eq_refl).
Defined.

Lemma generators_retry_until_free_witness :
  generate_email "sl.co" 1000 taken_aliases (collisions 11) 0
  = Ok ("free@sl.co", 12).
Proof.
  apply (proj1 (generators_retry_until_free "sl.co" (fun s => s) taken_aliases
                  [] (collisions 11) (fun _ => "x") "demo" 11 1000 0)).
  - lia.
  - intros i Hi. unfold collisions. simpl.
    destruct (Nat.ltb_spec i 11); [| lia]. vm_compute. discriminate.
  - vm_compute. reflexivity.
Defined.

Lemma binding_creation_idempotent_witness :
  reachable sample_table
  ∧ get_or_create (binding_kw 7 1) sample_table = Ok (sample_row, sample_table)
  ∧ at_most_one_binding sample_table.
Proof.
  assert (H : reachable sample_table).
  { unfold reachable. apply rtc_once.
    apply (step_get_or_create (binding_kw 7 1) empty_table sample_row).
    vm_compute. reflexivity. }
  split; [exact H |]. split; [vm_compute; reflexivity |].
  apply (proj1 (binding_creation_idempotent sample_table H)).
Defined.

Lemma User_create_plan_expiration_witness :
  kw_plan sample_kw = None
  ∧ kw_plan_expiration sample_kw = None
  ∧ plan_expiration_invariant (User_create 1 sample_kw).
Proof.
  split; [reflexivity |]. split; [reflexivity |].
  apply (proj1 (User_create_plan_expiration 1 sample_kw free_user free None)
           eq_refl eq_refl).
Defined.

Lemma default_image_urls_witness :
  profile_picture_id free_user = None
  ∧ profile_picture_url sample_s3_get_url sample_md5_hexdigest free_user
    = Ok "https://www.gravatar.com/avatar/d41d8cd98f00b204e9800998ecf8427e"
  ∧ icon_id sample_client = None
  ∧ get_icon_url sample_s3_get_url "https://app.example.org" sample_client
    = Ok "https://app.example.org/static/default-icon.svg".
Proof.
  split; [reflexivity |].
  split.
  { apply (proj1 (default_image_urls sample_s3_get_url sample_md5_hexdigest
                    "https://app.example.org") free_user eq_refl). }
  split; [reflexivity |].
  apply (proj2 (default_image_urls sample_s3_get_url sample_md5_hexdigest
                  "https://app.example.org") sample_client eq_refl).
Defined.

Lemma get_email_agrees_with_get_user_info_witness :
  EMAIL ∈ get_scopes sample_client
  ∧ ∃ (res : gmap string PyValue) (e : string),
      get_user_info sample_s3_get_url sample_binding = Ok res
      ∧ get_email sample_binding = Ok e
      ∧ res !! "email" = Some (PyStr e).
Proof.
  assert (H : EMAIL ∈ get_scopes sample_client).
  { unfold get_scopes. rewrite !elem_of_cons. tauto. }
  split; [exact H |].
  destruct (get_email_agrees_with_get_user_info sample_s3_get_url
              (get_scopes sample_client) sample_binding H)
    as (res & e & H1 & H2 & H3 & _).
  exists res, e. split; [exact H1 |]. split; [exact H2 | exact H3].
Defined.

Lemma promo_codes_round_trip_witness :
  promo_codes free_user = None
  ∧ get_promo_codes free_user = []
  ∧ get_promo_codes
      (save_new_promo_code "SPRING" (save_new_promo_code "HELLO" free_user))
    = ["HELLO"; "SPRING"].
Proof.
  split; [reflexivity |].
  split.
  { apply (proj1 (promo_codes_round_trip free_user)). left. reflexivity. }
  rewrite (proj2 (promo_codes_round_trip
                    (save_new_promo_code "HELLO" free_user)) "SPRING");
    [| discriminate | reflexivity].
  rewrite (proj2 (promo_codes_round_trip free_user) "HELLO");
    [| discriminate | reflexivity].
  reflexivity.
Defined.

(** * Further properties of the model layer *)

(** ** Plan and quota, the two evaluators together *)

Lemma can_create_new_email_cases
    (MAX : Z) (tbl : list GenEmail) (now : Arrow) (u : User) :
  can_create_new_email MAX tbl now u
  = match plan u, plan_expiration u with
    | monthly, _ | yearly, _ => Ok true
    | trial, None => Raise TypeError
    | trial, Some t =>
        if (now <? t)%Z then Ok true
        else Ok (GenEmail_count_by_user tbl (user_id u) <? MAX)%Z
    | free, _ => Ok (GenEmail_count_by_user tbl (user_id u) <? MAX)%Z
    end.
Proof.
  unfold can_create_new_email, is_premium.
  destruct (plan u), (plan_expiration u) as [t |]; simpl; try reflexivity;
    destruct (now <? t)%Z; reflexivity.
Qed.

Lemma should_upgrade_cases (tz : TzLocal) (now : Arrow) (u : User) :
  should_upgrade tz now u
  = match plan u, plan_expiration u with
    | free, _ => Ok true
    | trial, None => Raise TypeError
    | trial, Some t => Ok (t <? shift_weeks tz 1 now)%Z
    | monthly, _ | yearly, _ => Ok false
    end.
Proof.
  unfold should_upgrade.
  destruct (plan u), (plan_expiration u) as [t |]; simpl; try reflexivity;
    destruct (t <? shift_weeks tz 1 now)%Z; reflexivity.
Qed.

(** One week later on the local wall clock is more than five and less than
    nine days of 24 hours later, whatever the zone. *)
Lemma shift_weeks_one_bounds (tz : TzLocal) (now : Arrow) :
  (shift_days 5 now < shift_weeks tz 1 now < shift_days 9 now)%Z.
Proof.
  rewrite shift_weeks_offset_change.
  pose proof (offset_change_bound tz 1 now). unfold shift_days. lia.
Qed.

(** X1. A user who is refused a new alias is invited to upgrade: whenever
    [can_create_new_email] returns false, [should_upgrade] returns true at
    the same instant, in every time zone. *)
Theorem refused_alias_invited_to_upgrade (tz : TzLocal)
    (MAX : Z) (tbl : list GenEmail) (now : Arrow) (u : User) :
  can_create_new_email MAX tbl now u = Ok false →
  should_upgrade tz now u = Ok true.
Proof.
  rewrite can_create_new_email_cases, should_upgrade_cases.
  destruct (plan u), (plan_expiration u) as [t |]; try discriminate;
    try reflexivity.
  destruct (Z.ltb_spec now t); [discriminate |]. intros _. f_equal.
  apply Z.ltb_lt. pose proof (shift_weeks_one_bounds tz now).
  unfold shift_days in *. unfold microseconds_per_day in *. lia.
Qed.

Lemma refused_alias_invited_to_upgrade_witness :
  can_create_new_email 1 taken_aliases 0 free_user = Ok false
  ∧ should_upgrade dst_ends 0 free_user = Ok true.
Proof.
  split; [reflexivity |].
  apply (refused_alias_invited_to_upgrade dst_ends 1 taken_aliases 0
           free_user).
  reflexivity.
Defined.

(** X2. The two evaluators raise in exactly one situation, and together: a
    trial user whose [plan_expiration] is null. The exception is
    [TypeError]; for every other user both return a boolean. *)
Theorem plan_evaluators_raise (tz : TzLocal)
    (MAX : Z) (tbl : list GenEmail) (now : Arrow) (u : User) (e : PyError) :
  (should_upgrade tz now u = Raise e
   ↔ e = TypeError ∧ plan u = trial ∧ plan_expiration u = None)
  ∧ (can_create_new_email MAX tbl now u = Raise e
     ↔ e = TypeError ∧ plan u = trial ∧ plan_expiration u = None).
Proof.
  rewrite can_create_new_email_cases, (should_upgrade_cases tz).
  destruct (plan u), (plan_expiration u) as [t |];
    try destruct (now <? t)%Z;
    (split;
     (split;
      [ intros H; try discriminate; injection H as <-; auto
      | intros (-> & Hp & He); try discriminate; reflexivity ])).
Qed.

(** X3. The quota is per user and ignores [enabled]: a row of another user
    leaves the answer of [can_create_new_email] unchanged, a row of the user
    (enabled or not) raises the count by one and can only turn the answer
    from true to false. *)
Theorem quota_counts_own_aliases
    (MAX : Z) (tbl : list GenEmail) (now : Arrow) (u : User) (g : GenEmail) :
  (gen_email_user_id g ≠ user_id u →
     can_create_new_email MAX (tbl ++ [g]) now u
     = can_create_new_email MAX tbl now u)
  ∧ (gen_email_user_id g = user_id u →
       GenEmail_count_by_user (tbl ++ [g]) (user_id u)
       = (GenEmail_count_by_user tbl (user_id u) + 1)%Z
       ∧ (can_create_new_email MAX (tbl ++ [g]) now u = Ok true →
          can_create_new_email MAX tbl now u = Ok true)).
Proof.
  assert (Hcount : GenEmail_count_by_user (tbl ++ [g]) (user_id u)
            = (GenEmail_count_by_user tbl (user_id u)
               + (if decide (gen_email_user_id g = user_id u) then 1 else 0))%Z).
  { unfold GenEmail_count_by_user. rewrite filter_app, length_app.
    rewrite filter_cons, filter_nil.
    destruct (decide (gen_email_user_id g = user_id u)); simpl; lia. }
  split.
  - intros Hne. rewrite !can_create_new_email_cases, Hcount.
    destruct (decide (gen_email_user_id g = user_id u)); [contradiction |].
    rewrite Z.add_0_r. reflexivity.
  - intros Heq. rewrite Hcount.
    destruct (decide (gen_email_user_id g = user_id u)); [| contradiction].
    split; [reflexivity |].
    rewrite !can_create_new_email_cases, Hcount.
    destruct (decide (gen_email_user_id g = user_id u)); [| contradiction].
    destruct (plan u), (plan_expiration u) as [t |];
      try destruct (now <? t)%Z; try (intros _; reflexivity);
      try discriminate;
      intros H; injection H as H; f_equal; apply Z.ltb_lt in H;
      apply Z.ltb_lt; lia.
Qed.

Lemma quota_counts_own_aliases_witness :
  gen_email_user_id alias_a1 = user_id free_user
  ∧ can_create_new_email 2 [] 0 free_user = Ok true.
Proof.
  split; [reflexivity |].
  apply (proj2 (proj2 (quota_counts_own_aliases 2 [] 0 free_user alias_a1)
                  eq_refl)).
  reflexivity.
Defined.

(** X4. A trial lapses and does not come back: if
    [can_create_new_email] is true at a later instant it was true before,
    the table being the same. [should_upgrade], once true, is true at every
    later instant when the UTC offset changes in neither of the two weeks
    compared, and in any time zone it is true from 4 days later on; in
    between, a week on the wall clock may end earlier than the week that
    started before it. *)
Theorem plan_evaluators_over_time (tz : TzLocal)
    (MAX : Z) (tbl : list GenEmail) (now later : Arrow) (u : User) :
  (now ≤ later)%Z →
  (can_create_new_email MAX tbl later u = Ok true →
     can_create_new_email MAX tbl now u = Ok true)
  ∧ (offset_change tz 1 now = 0%Z → offset_change tz 1 later = 0%Z →
     should_upgrade tz now u = Ok true → should_upgrade tz later u = Ok true)
  ∧ ((shift_days 4 now ≤ later)%Z →
     should_upgrade tz now u = Ok true → should_upgrade tz later u = Ok true).
Proof.
  intros Hle.
  rewrite !can_create_new_email_cases, !(should_upgrade_cases tz).
  pose proof (shift_weeks_offset_change tz 1 now) as Hn.
  pose proof (shift_weeks_offset_change tz 1 later) as Hl.
  pose proof (shift_weeks_one_bounds tz now) as Bn.
  pose proof (shift_weeks_one_bounds tz later) as Bl.
  unfold shift_days in *.
  destruct (plan u), (plan_expiration u) as [t |];
    (split; [| split]); try tauto.
  - destruct (Z.ltb_spec later t), (Z.ltb_spec now t); try tauto. lia.
  - intros H0 H1 H. injection H as H. f_equal. apply Z.ltb_lt in H.
    apply Z.ltb_lt. lia.
  - intros H4 H. injection H as H. f_equal. apply Z.ltb_lt in H.
    apply Z.ltb_lt. lia.
Qed.

Lemma plan_evaluators_over_time_witness :
  (0 ≤ 5)%Z
  ∧ offset_change utc 1 0 = 0%Z
  ∧ offset_change utc 1 5 = 0%Z
  ∧ should_upgrade utc 5 trial_user = Ok true
  ∧ can_create_new_email 3 [] 0 trial_user = Ok true.
Proof.
  split; [lia |]. split; [reflexivity |]. split; [reflexivity |].
  split.
  - apply (proj1 (proj2 (plan_evaluators_over_time utc 3 [] 0 5 trial_user
                           ltac:(lia))) eq_refl eq_refl).
    reflexivity.
  - apply (proj1 (plan_evaluators_over_time utc 3 [] 0 5 trial_user
                    ltac:(lia))).
    reflexivity.
Defined.

(** ** Promo codes, beyond the comma-free case *)

Section JoinSplit.

Variable sep : ascii.

(** Joining the pieces of a split gives the string back. *)
Lemma join_with_split_on (s : string) : join_with sep (split_on sep s) = s.
Proof.
  induction s as [| c s IH]; [reflexivity |].
  cbn [split_on]. destruct (Ascii.eqb_spec c sep) as [-> | Hc].
  - pose proof (split_on_not_nil sep s) as Hne.
    destruct (split_on sep s) as [| h t]; [congruence |].
    change (join_with sep (EmptyString :: h :: t))
      with (String sep (join_with sep (h :: t))).
    rewrite IH. reflexivity.
  - pose proof (split_on_not_nil sep s) as Hne.
    destruct (split_on sep s) as [| h t]; [congruence |].
    rewrite <- IH. destruct t; reflexivity.
Qed.

Lemma append_String_assoc (x j rest : string) :
  String.append x (String sep (String.append j rest))
  = String.append (String.append x (String sep j)) rest.
Proof.
  induction x as [| a x IHx]; [reflexivity |].
  change (String a (String.append x (String sep (String.append j rest)))
          = String a (String.append (String.append x (String sep j)) rest)).
  rewrite IHx. reflexivity.
Qed.

Lemma join_with_snoc (l : list string) (c : string) :
  l ≠ [] →
  join_with sep (l ++ [c]) = String.append (join_with sep l) (String sep c).
Proof.
  induction l as [| x l IH]; [congruence |]. intros _.
  destruct l as [| y l]; [reflexivity |].
  change (join_with sep ((x :: y :: l) ++ [c]))
    with (String.append x (String sep (join_with sep ((y :: l) ++ [c])))).
  rewrite IH by discriminate.
  change (join_with sep (x :: y :: l))
    with (String.append x (String sep (join_with sep (y :: l)))).
  apply append_String_assoc.
Qed.

Lemma split_on_join_with_snoc (l : list string) (c : string) :
  Forall (fun x => contains_char sep x = false) l →
  split_on sep (join_with sep (l ++ [c])) = l ++ split_on sep c.
Proof.
  induction l as [| x l IH]; intros Hall; [reflexivity |].
  inversion Hall as [| ? ? Hx Hl]; subst.
  assert (Hne : l ++ [c] ≠ []) by (destruct l; discriminate).
  change ((x :: l) ++ [c]) with (x :: (l ++ [c])).
  destruct (l ++ [c]) as [| y r] eqn:E; [congruence |].
  change (join_with sep (x :: y :: r))
    with (String.append x (String sep (join_with sep (y :: r)))).
  rewrite split_on_append by assumption. rewrite (IH Hl). reflexivity.
Qed.

Lemma join_with_cons_not_empty (x : string) (l : list string) :
  l ≠ [] → join_with sep (x :: l) ≠ EmptyString.
Proof.
  destruct l as [| y l]; [congruence |]. intros _.
  change (join_with sep (x :: y :: l))
    with (String.append x (String sep (join_with sep (y :: l)))).
  destruct x; discriminate.
Qed.

End JoinSplit.

Lemma get_promo_codes_truthy (u : User) (s : string) :
  promo_codes u = Some s → s ≠ EmptyString →
  get_promo_codes u = split_on comma s.
Proof.
  intros Hs Hne. unfold get_promo_codes. rewrite Hs.
  rewrite truthy_str_Some by assumption. reflexivity.
Qed.

Lemma get_promo_codes_nil (u : User) :
  get_promo_codes u = [] ↔
  promo_codes u = None ∨ promo_codes u = Some EmptyString.
Proof.
  unfold get_promo_codes.
  destruct (promo_codes u) as [[| a s] |]; simpl.
  - split; [right; reflexivity | reflexivity].
  - split.
    + intros H. destruct (split_on_not_nil comma (String a s) H).
    + intros [H | H]; discriminate.
  - split; [left; reflexivity | reflexivity].
Qed.

(** X5. [save_new_promo_code] does not check the code it is given. A code
    that contains commas is read back as its comma-separated pieces; an
    empty code is read back as an empty entry when the user already has
    codes, and is lost when the user has none ([promo_codes] becomes the
    empty string and the list stays empty). *)
Theorem save_new_promo_code_unchecked (u : User) (c : string) :
  (c ≠ EmptyString ∨ get_promo_codes u ≠ [] →
     get_promo_codes (save_new_promo_code c u)
     = get_promo_codes u ++ split_on comma c)
  ∧ (c = EmptyString → get_promo_codes u = [] →
       promo_codes (save_new_promo_code c u) = Some EmptyString
       ∧ get_promo_codes (save_new_promo_code c u) = []).
Proof.
  split.
  - intros H. unfold save_new_promo_code.
    unfold get_promo_codes at 1. unfold set_promo_codes. cbn [promo_codes].
    rewrite truthy_str_Some.
    + cbn [negb]. apply split_on_join_with_snoc. apply get_promo_codes_pieces.
    + destruct H as [H | H].
      * apply join_with_snoc_not_empty. assumption.
      * destruct (get_promo_codes u) as [| x l]; [congruence |].
        apply join_with_cons_not_empty. destruct l; discriminate.
  - intros -> Hnil. unfold save_new_promo_code. rewrite Hnil.
    split; reflexivity.
Qed.

Lemma save_new_promo_code_unchecked_witness :
  get_promo_codes (save_new_promo_code "A,B" free_user) = ["A"; "B"]%string.
Proof.
  apply (proj1 (save_new_promo_code_unchecked free_user "A,B")).
  left. discriminate.
Defined.

(** X6. The column written by [save_new_promo_code]: the code itself when
    [promo_codes] was null or empty, and otherwise the old string, a comma
    and the code. The old string is kept as a prefix, character for
    character. *)
Theorem save_new_promo_code_column (u : User) (c : string) :
  (promo_codes u = None ∨ promo_codes u = Some EmptyString →
     promo_codes (save_new_promo_code c u) = Some c)
  ∧ (∀ s, promo_codes u = Some s → s ≠ EmptyString →
       promo_codes (save_new_promo_code c u)
       = Some (String.append s (String comma c))).
Proof.
  split.
  - intros H. apply get_promo_codes_nil in H.
    unfold save_new_promo_code. rewrite H. reflexivity.
  - intros s Hs Hne. unfold save_new_promo_code. cbn [set_promo_codes promo_codes].
    rewrite (get_promo_codes_truthy u s Hs Hne).
    rewrite join_with_snoc by apply split_on_not_nil.
    rewrite join_with_split_on. reflexivity.
Qed.

Lemma save_new_promo_code_column_witness :
  promo_codes (save_new_promo_code "B" (save_new_promo_code "A" free_user))
  = Some "A,B"%string.
Proof.
  apply (proj2 (save_new_promo_code_column
                  (save_new_promo_code "A" free_user) "B") "A"%string).
  - reflexivity.
  - discriminate.
Defined.

(** ** The projection and the stored images *)

(** X7. [get_user_info] and [profile_picture_url] agree on a user who has a
    profile picture and differ on one who has none: the projection binds
    [avatar_url] to [None], while [profile_picture_url] falls back to the
    gravatar URL. Neither raises. *)
Theorem avatar_url_and_profile_picture_url
    (s3_get_url md5_hexdigest : string → string) (cu : ClientUser) :
  ∃ (res : gmap string PyValue) (url : string),
    get_user_info s3_get_url cu = Ok res
    ∧ profile_picture_url s3_get_url md5_hexdigest (cu_user cu) = Ok url
    ∧ if truthy_int (profile_picture_id (cu_user cu))
      then res !! "avatar_url" = Some (PyStr url)
      else res !! "avatar_url" = Some PyNone
           ∧ url = "https://www.gravatar.com/avatar/"
                   +:+ md5_hexdigest (user_email (cu_user cu)).
Proof.
  assert (Hin : AVATAR_URL ∈ get_scopes (cu_client cu)).
  { unfold get_scopes. rewrite !elem_of_cons. tauto. }
  pose proof (project_all_scope s3_get_url cu (get_scopes (cu_client cu))
                AVATAR_URL Hin (base_info cu)) as Hres.
  cbn [Scope_value disclosed] in Hres. unfold references in Hres.
  exists (project_all s3_get_url cu (get_scopes (cu_client cu)) (base_info cu)).
  unfold profile_picture_url, profile_picture_id.
  destruct (profile_picture (cu_user cu)) as [f |];
    cbn [fmap option_fmap option_map truthy_int related_get_url] in *.
  - destruct (negb (file_id f =? 0)%Z).
    + exists (s3_get_url (file_path f)).
      split; [apply get_user_info_scopes_ok |]. split; [reflexivity |].
      exact Hres.
    + eexists. split; [apply get_user_info_scopes_ok |].
      split; [reflexivity |]. split; [exact Hres | reflexivity].
  - eexists. split; [apply get_user_info_scopes_ok |].
    split; [reflexivity |]. split; [exact Hres | reflexivity].
Qed.

(** X8. The loop of [get_user_info] is insensitive to the order of the
    scopes and to repetitions: two lists with the same scopes give the same
    dictionary. *)
Theorem get_user_info_scopes_same_set (s3_get_url : string → string)
    (scopes1 scopes2 : list Scope) (cu : ClientUser) :
  (∀ s, s ∈ scopes1 ↔ s ∈ scopes2) →
  get_user_info_scopes s3_get_url scopes1 cu
  = get_user_info_scopes s3_get_url scopes2 cu.
Proof.
  intros Hsame. rewrite !get_user_info_scopes_ok. f_equal.
  apply map_eq. intros k.
  destruct (decide (Exists (fun s => Scope_value s = k) scopes1)) as [Hex | Hno].
  - apply Exists_exists in Hex as (s & Hs & <-).
    rewrite (project_all_scope s3_get_url cu scopes1 s Hs).
    apply Hsame in Hs.
    rewrite (project_all_scope s3_get_url cu scopes2 s Hs). reflexivity.
  - rewrite !project_all_other; [reflexivity | |].
    + intros s Hs Heq. apply Hno. apply Exists_exists. exists s.
      split; [apply Hsame; assumption | assumption].
    + intros s Hs Heq. apply Hno. apply Exists_exists. exists s.
      split; assumption.
Qed.

Lemma get_user_info_scopes_same_set_witness :
  get_user_info_scopes sample_s3_get_url [EMAIL; NAME; EMAIL] sample_binding
  = get_user_info_scopes sample_s3_get_url [NAME; EMAIL] sample_binding.
Proof.
  apply (get_user_info_scopes_same_set sample_s3_get_url
           [EMAIL; NAME; EMAIL] [NAME; EMAIL] sample_binding).
  intros s. rewrite !elem_of_cons, elem_of_nil. tauto.
Defined.

(** ** Identifier generation, the outcomes *)

Section GeneratorOutcomes.

Variable EMAIL_DOMAIN : string.
Variable convert_to_id : string → string.

Lemma generate_email_outcome (tbl : list GenEmail)
    (random_words : nat → string) (depth : nat) :
  ∀ drawn,
    (∃ n, n < depth
          ∧ (∀ i, i < n →
               GenEmail_get_by_email tbl
                 (email_candidate EMAIL_DOMAIN (random_words (drawn + i)))
               ≠ None)
          ∧ GenEmail_get_by_email tbl
              (email_candidate EMAIL_DOMAIN (random_words (drawn + n))) = None
          ∧ generate_email EMAIL_DOMAIN depth tbl random_words drawn
            = Ok (email_candidate EMAIL_DOMAIN (random_words (drawn + n)),
                  S (drawn + n)))
    ∨ ((∀ i, i < depth →
          GenEmail_get_by_email tbl
            (email_candidate EMAIL_DOMAIN (random_words (drawn + i))) ≠ None)
       ∧ generate_email EMAIL_DOMAIN depth tbl random_words drawn
         = Raise RecursionError).
Proof.
  induction depth as [| depth IH]; intros drawn.
  - right. split; [intros i Hi; lia | reflexivity].
  - destruct (GenEmail_get_by_email tbl
                (email_candidate EMAIL_DOMAIN (random_words drawn))) eqn:E.
    + destruct (IH (S drawn)) as [(n & Hn & Htaken & Hfree & Hgen) | [Htaken Hgen]].
      * left. exists (S n).
        replace (drawn + S n) with (S drawn + n) by lia.
        split; [lia |]. split; [| split; [assumption |]].
        -- intros [| i] Hi.
           ++ rewrite Nat.add_0_r, E. discriminate.
           ++ replace (drawn + S i) with (S drawn + i) by lia.
              apply Htaken. lia.
        -- cbn [generate_email].
           fold (email_candidate EMAIL_DOMAIN (random_words drawn)).
           rewrite E. cbn [is_none]. exact Hgen.
      * right. split.
        -- intros [| i] Hi.
           ++ rewrite Nat.add_0_r, E. discriminate.
           ++ replace (drawn + S i) with (S drawn + i) by lia.
              apply Htaken. lia.
        -- cbn [generate_email].
           fold (email_candidate EMAIL_DOMAIN (random_words drawn)).
           rewrite E. cbn [is_none]. exact Hgen.
    + left. exists 0. rewrite Nat.add_0_r.
      split; [lia |]. split; [intros i Hi; lia |]. split; [assumption |].
      cbn [generate_email].
      fold (email_candidate EMAIL_DOMAIN (random_words drawn)).
      rewrite E. reflexivity.
Qed.

Lemma generate_oauth_client_id_outcome (tbl : list Client)
    (random_string : nat → string) (client_name : string) (depth : nat) :
  ∀ drawn,
    (∃ n, n < depth
          ∧ (∀ i, i < n →
               Client_get_by_oauth_client_id tbl
                 (client_id_candidate convert_to_id client_name
                    (random_string (drawn + i))) ≠ None)
          ∧ Client_get_by_oauth_client_id tbl
              (client_id_candidate convert_to_id client_name
                 (random_string (drawn + n))) = None
          ∧ generate_oauth_client_id convert_to_id depth tbl random_string
              drawn client_name
            = Ok (client_id_candidate convert_to_id client_name
                    (random_string (drawn + n)),
                  S (drawn + n)))
    ∨ ((∀ i, i < depth →
          Client_get_by_oauth_client_id tbl
            (client_id_candidate convert_to_id client_name
               (random_string (drawn + i))) ≠ None)
       ∧ generate_oauth_client_id convert_to_id depth tbl random_string
           drawn client_name
         = Raise RecursionError).
Proof.
  induction depth as [| depth IH]; intros drawn.
  - right. split; [intros i Hi; lia | reflexivity].
  - destruct (Client_get_by_oauth_client_id tbl
                (client_id_candidate convert_to_id client_name
                   (random_string drawn))) eqn:E.
    + destruct (IH (S drawn)) as [(n & Hn & Htaken & Hfree & Hgen) | [Htaken Hgen]].
      * left. exists (S n).
        replace (drawn + S n) with (S drawn + n) by lia.
        split; [lia |]. split; [| split; [assumption |]].
        -- intros [| i] Hi.
           ++ rewrite Nat.add_0_r, E. discriminate.
           ++ replace (drawn + S i) with (S drawn + i) by lia.
              apply Htaken. lia.
        -- cbn [generate_oauth_client_id].
           fold (client_id_candidate convert_to_id client_name
                   (random_string drawn)).
           rewrite E. cbn [is_none]. exact Hgen.
      * right. split.
        -- intros [| i] Hi.
           ++ rewrite Nat.add_0_r, E. discriminate.
           ++ replace (drawn + S i) with (S drawn + i) by lia.
              apply Htaken. lia.
        -- cbn [generate_oauth_client_id].
           fold (client_id_candidate convert_to_id client_name
                   (random_string drawn)).
           rewrite E. cbn [is_none]. exact Hgen.
    + left. exists 0. rewrite Nat.add_0_r.
      split; [lia |]. split; [intros i Hi; lia |]. split; [assumption |].
      cbn [generate_oauth_client_id].
      fold (client_id_candidate convert_to_id client_name
              (random_string drawn)).
      rewrite E. reflexivity.
Qed.

End GeneratorOutcomes.

Lemma generate_email_only_recursion_error (EMAIL_DOMAIN : string)
    (tbl : list GenEmail) (random_words : nat → string) (depth drawn : nat)
    (err : PyError) :
  generate_email EMAIL_DOMAIN depth tbl random_words drawn = Raise err →
  err = RecursionError.
Proof.
  intros H.
  destruct (generate_email_outcome EMAIL_DOMAIN tbl random_words depth drawn)
    as [(n & _ & _ & _ & Hgen) | [_ Hgen]];
    rewrite Hgen in H; [discriminate | congruence].
Qed.

Lemma generate_oauth_client_id_only_recursion_error
    (convert_to_id : string → string) (tbl : list Client)
    (random_string : nat → string) (client_name : string)
    (depth drawn : nat) (err : PyError) :
  generate_oauth_client_id convert_to_id depth tbl random_string drawn
    client_name = Raise err →
  err = RecursionError.
Proof.
  intros H.
  destruct (generate_oauth_client_id_outcome convert_to_id tbl random_string
              client_name depth drawn)
    as [(n & _ & _ & _ & Hgen) | [_ Hgen]];
    rewrite Hgen in H; [discriminate | congruence].
Qed.

Lemma generate_oauth_client_id_fresh (convert_to_id : string → string)
    (tbl : list Client) (random_string : nat → string) (client_name : string)
    (depth drawn : nat) (i : string) (drawn' : nat) :
  generate_oauth_client_id convert_to_id depth tbl random_string drawn
    client_name = Ok (i, drawn') →
  Client_get_by_oauth_client_id tbl i = None.
Proof.
  intros H.
  destruct (generate_oauth_client_id_outcome convert_to_id tbl random_string
              client_name depth drawn)
    as [(n & _ & _ & Hfree & Hgen) | [_ Hgen]];
    rewrite Hgen in H; [| discriminate].
  injection H as <- _. exact Hfree.
Qed.

(** X9. What [generate_email] and [generate_oauth_client_id] return. A
    returned identifier is the candidate built from the last draw consumed,
    no row of the table holds it, and every earlier draw of the call
    collided: the call stops at the first free candidate. The only
    exception either function raises is [RecursionError]. *)
Theorem generators_return_first_free (EMAIL_DOMAIN : string)
    (convert_to_id : string → string) (emails : list GenEmail)
    (clients : list Client) (random_words random_string : nat → string)
    (client_name : string) (depth drawn : nat) :
  (∀ e drawn',
     generate_email EMAIL_DOMAIN depth emails random_words drawn
     = Ok (e, drawn') →
     drawn < drawn' ≤ drawn + depth
     ∧ e = email_candidate EMAIL_DOMAIN (random_words (drawn' - 1))
     ∧ GenEmail_get_by_email emails e = None
     ∧ ∀ i, drawn ≤ i < drawn' - 1 →
         GenEmail_get_by_email emails
           (email_candidate EMAIL_DOMAIN (random_words i)) ≠ None)
  ∧ (∀ i drawn',
       generate_oauth_client_id convert_to_id depth clients random_string
         drawn client_name = Ok (i, drawn') →
       drawn < drawn' ≤ drawn + depth
       ∧ i = client_id_candidate convert_to_id client_name
               (random_string (drawn' - 1))
       ∧ Client_get_by_oauth_client_id clients i = None
       ∧ ∀ j, drawn ≤ j < drawn' - 1 →
           Client_get_by_oauth_client_id clients
             (client_id_candidate convert_to_id client_name
                (random_string j)) ≠ None)
  ∧ (∀ err,
       generate_email EMAIL_DOMAIN depth emails random_words drawn
       = Raise err → err = RecursionError)
  ∧ (∀ err,
       generate_oauth_client_id convert_to_id depth clients random_string
         drawn client_name = Raise err → err = RecursionError).
Proof.
  pose proof (generate_email_outcome EMAIL_DOMAIN emails random_words depth
                drawn) as He.
  pose proof (generate_oauth_client_id_outcome convert_to_id clients
                random_string client_name depth drawn) as Hc.
  split; [| split; [| split]].
  - intros e drawn' H.
    destruct He as [(n & Hn & Htaken & Hfree & Hgen) | [_ Hgen]];
      rewrite Hgen in H; [| discriminate].
    injection H as <- <-.
    replace (S (drawn + n) - 1) with (drawn + n) by lia.
    split; [lia |]. split; [reflexivity |]. split; [assumption |].
    intros i Hi. replace i with (drawn + (i - drawn)) by lia.
    apply Htaken. lia.
  - intros i drawn' H.
    destruct Hc as [(n & Hn & Htaken & Hfree & Hgen) | [_ Hgen]];
      rewrite Hgen in H; [| discriminate].
    injection H as <- <-.
    replace (S (drawn + n) - 1) with (drawn + n) by lia.
    split; [lia |]. split; [reflexivity |]. split; [assumption |].
    intros j Hj. replace j with (drawn + (j - drawn)) by lia.
    apply Htaken. lia.
  - intros err H.
    destruct He as [(n & _ & _ & _ & Hgen) | [_ Hgen]];
      rewrite Hgen in H; [discriminate | congruence].
  - intros err H.
    destruct Hc as [(n & _ & _ & _ & Hgen) | [_ Hgen]];
      rewrite Hgen in H; [discriminate | congruence].
Qed.

Lemma generators_return_first_free_witness :
  generate_email "sl.co" 1000 taken_aliases (collisions 11) 0
  = Ok ("free@sl.co", 12)
  ∧ GenEmail_get_by_email taken_aliases "free@sl.co" = None.
Proof.
  assert (H : generate_email "sl.co" 1000 taken_aliases (collisions 11) 0
              = Ok ("free@sl.co", 12)) by (vm_compute; reflexivity).
  split; [exact H |].
  apply (proj1 (generators_return_first_free "sl.co" (fun s => s)
                  taken_aliases [] (collisions 11) (fun _ => "x") "demo"
                  1000 0) "free@sl.co" 12 H).
Defined.

(** ** Creating an alias and creating a client *)

Lemma find_none_not_elem {A B : Type} (f : A → B) (p : A → bool) (b : B)
    (l : list A) :
  (∀ a, f a = b → p a = true) →
  find p l = None → b ∉ f <$> l.
Proof.
  intros Hp. induction l as [| a l IH]; simpl.
  - intros _ H. inversion H.
  - destruct (p a) eqn:E; [discriminate |]. intros Hnone Hin.
    apply elem_of_cons in Hin as [Heq | Hin].
    + rewrite (Hp a (eq_sym Heq)) in E. discriminate.
    + exact (IH Hnone Hin).
Qed.

Lemma session_add_emails (g : GenEmail) (t : Table GenEmail) :
  GenEmail_get_by_email (rows t) (gen_email_email g) = None →
  session_add g t
  = Ok {| rows := rows t ++ [g]; next_id := (next_id t + 1)%Z |}.
Proof.
  intros H. unfold session_add. simpl.
  apply find_none_filter, filter_nil_existsb in H.
  unfold same_email. rewrite H. reflexivity.
Qed.

Lemma session_add_clients (c : Client) (t : Table Client) :
  Client_get_by_oauth_client_id (rows t) (oauth_client_id c) = None →
  session_add c t
  = Ok {| rows := rows t ++ [c]; next_id := (next_id t + 1)%Z |}.
Proof.
  intros H. unfold session_add. simpl.
  apply find_none_filter, filter_nil_existsb in H.
  unfold same_oauth_client_id. rewrite H. reflexivity.
Qed.

(** X10. [GenEmail.create_new_gen_email] never fails on the unique
    constraint of [email]: the address comes from [generate_email], so the
    insertion is accepted and the only exception is the [RecursionError] of
    the generator. On success the table gains exactly one row, enabled, owned
    by the user, with an address no earlier row holds; the user's alias count
    grows by one and the addresses of the table stay pairwise distinct. *)
Theorem create_new_gen_email_outcome (EMAIL_DOMAIN : string) (depth : nat)
    (random_words : nat → string) (drawn : nat) (user : Z)
    (t : Table GenEmail) :
  (∀ g t' drawn',
     create_new_gen_email EMAIL_DOMAIN depth random_words drawn user t
     = Ok (g, t', drawn') →
     generate_email EMAIL_DOMAIN depth (rows t) random_words drawn
     = Ok (gen_email_email g, drawn')
     ∧ rows t' = rows t ++ [g]
     ∧ next_id t' = (next_id t + 1)%Z
     ∧ gen_email_row_id g = next_id t
     ∧ gen_email_user_id g = user
     ∧ gen_email_enabled g = true
     ∧ GenEmail_get_by_email (rows t) (gen_email_email g) = None
     ∧ GenEmail_count_by_user (rows t') user
       = (GenEmail_count_by_user (rows t) user + 1)%Z
     ∧ (unique_emails t → unique_emails t'))
  ∧ (∀ err,
       create_new_gen_email EMAIL_DOMAIN depth random_words drawn user t
       = Raise err → err = RecursionError).
Proof.
  unfold create_new_gen_email.
  destruct (generate_email EMAIL_DOMAIN depth (rows t) random_words drawn)
    as [[e d] | err0] eqn:Hgen; cbn [mbind result_bind].
  - pose proof (generate_email_fresh EMAIL_DOMAIN (rows t) random_words depth
                  drawn e d Hgen) as Hfresh.
    unfold create.
    rewrite session_add_emails by exact Hfresh. cbn [mbind result_bind].
    split; [| discriminate].
    intros g t' drawn' H. injection H as <- <- <-. cbn.
    repeat (split; [reflexivity |]).
    split; [exact Hfresh |]. split.
    + unfold GenEmail_count_by_user.
      rewrite filter_app, length_app, filter_cons, filter_nil. cbn.
      destruct (decide (user = user)); [simpl; lia | contradiction].
    + unfold unique_emails. cbn. intros Hnd. rewrite fmap_app.
      apply NoDup_app. split; [assumption |]. split; [| apply NoDup_singleton].
      intros x Hx Hx'. apply list_elem_of_singleton in Hx'. subst x.
      revert Hx. apply (find_none_not_elem gen_email_email
                          (fun g => String.eqb (gen_email_email g) e));
        [| exact Hfresh].
      intros a Ha. cbn in Ha. rewrite Ha. apply String.eqb_refl.
  - split; [discriminate |]. intros err H. injection H as <-.
    eapply generate_email_only_recursion_error. exact Hgen.
Qed.

Lemma create_new_gen_email_outcome_witness :
  create_new_gen_email "sl.co" 1000 (collisions 11) 0 1 sample_alias_table
  = Ok (sample_new_alias,
        {| rows := taken_aliases ++ [sample_new_alias]; next_id := 3 |}, 12)
  ∧ GenEmail_count_by_user (taken_aliases ++ [sample_new_alias]) 1 = 2%Z.
Proof.
  assert (H : create_new_gen_email "sl.co" 1000 (collisions 11) 0 1
                sample_alias_table
              = Ok (sample_new_alias,
                    {| rows := taken_aliases ++ [sample_new_alias];
                       next_id := 3 |}, 12))
    by (vm_compute; reflexivity).
  split; [exact H |].
  destruct (proj1 (create_new_gen_email_outcome "sl.co" 1000 (collisions 11)
                     0 1 sample_alias_table) _ _ _ H)
    as (_ & _ & _ & _ & _ & _ & _ & Hcount & _).
  exact Hcount.
Defined.

(** X11. [Client.create_new] never fails on the unique constraint of
    [oauth_client_id]: the identifier comes from [generate_oauth_client_id],
    and the only exception is the generator's [RecursionError]. On success
    the table gains exactly one client with the given name and owner, the
    secret is the next draw of 40 characters, one draw more is consumed than
    the generator took, the identifiers of the table stay pairwise
    distinct, and the new client has no icon: [get_icon_url] gives the
    default icon. *)
Theorem create_new_outcome (convert_to_id : string → string)
    (random_string : nat → nat → string) (DEFAULT_LENGTH : nat)
    (s3_get_url : string → string) (URL : string)
    (depth drawn : nat) (name : string) (user : Z) (t : Table Client) :
  (∀ c t' drawn',
     create_new convert_to_id random_string DEFAULT_LENGTH depth drawn name
       user t = Ok (c, t', drawn') →
     (∃ d, generate_oauth_client_id convert_to_id depth (rows t)
             (random_string DEFAULT_LENGTH) drawn name
           = Ok (oauth_client_id c, d)
           ∧ oauth_client_secret c = random_string 40 d
           ∧ drawn' = S d)
     ∧ rows t' = rows t ++ [c]
     ∧ next_id t' = (next_id t + 1)%Z
     ∧ client_row_id c = next_id t
     ∧ client_name c = name
     ∧ client_owner_id c = user
     ∧ Client_get_by_oauth_client_id (rows t) (oauth_client_id c) = None
     ∧ get_icon_url s3_get_url URL c = Ok (URL +:+ "/static/default-icon.svg")
     ∧ (unique_oauth_client_ids t → unique_oauth_client_ids t'))
  ∧ (∀ err,
       create_new convert_to_id random_string DEFAULT_LENGTH depth drawn name
         user t = Raise err → err = RecursionError).
Proof.
  unfold create_new.
  destruct (generate_oauth_client_id convert_to_id depth (rows t)
              (random_string DEFAULT_LENGTH) drawn name)
    as [[i d] | err0] eqn:Hgen; cbn [mbind result_bind].
  - pose proof (generate_oauth_client_id_fresh convert_to_id (rows t)
                  (random_string DEFAULT_LENGTH) name depth drawn i d Hgen)
      as Hfresh.
    unfold create.
    rewrite session_add_clients by exact Hfresh. cbn [mbind result_bind].
    split; [| discriminate].
    intros c t' drawn' H. injection H as <- <- <-. cbn.
    split; [exists d; repeat split; reflexivity |].
    repeat (split; [reflexivity |]).
    split; [exact Hfresh |]. split; [reflexivity |].
    unfold unique_oauth_client_ids. cbn. intros Hnd. rewrite fmap_app.
    apply NoDup_app. split; [assumption |]. split; [| apply NoDup_singleton].
    intros x Hx Hx'. apply list_elem_of_singleton in Hx'. subst x.
    revert Hx. apply (find_none_not_elem oauth_client_id
                        (fun c => String.eqb (oauth_client_id c) i));
      [| exact Hfresh].
    intros a Ha. cbn in Ha. rewrite Ha. apply String.eqb_refl.
  - split; [discriminate |]. intros err H. injection H as <-.
    eapply generate_oauth_client_id_only_recursion_error. exact Hgen.
Qed.

Lemma create_new_outcome_witness :
  create_new sample_convert_to_id sample_random_string 5 1000 0 "Demo" 1
    sample_client_table
  = Ok (sample_new_client,
        {| rows := [sample_client; sample_new_client]; next_id := 9 |}, 3)
  ∧ get_icon_url sample_s3_get_url "https://app.example.org" sample_new_client
    = Ok "https://app.example.org/static/default-icon.svg".
Proof.
  assert (H : create_new sample_convert_to_id sample_random_string 5 1000 0
                "Demo" 1 sample_client_table
              = Ok (sample_new_client,
                    {| rows := [sample_client; sample_new_client];
                       next_id := 9 |}, 3))
    by (vm_compute; reflexivity).
  split; [exact H |].
  destruct (proj1 (create_new_outcome sample_convert_to_id sample_random_string
                     5 sample_s3_get_url "https://app.example.org" 1000 0
                     "Demo" 1 sample_client_table) _ _ _ H)
    as (_ & _ & _ & _ & _ & _ & _ & Hicon & _).
  exact Hicon.
Defined.

(** ** [ModelMixin] on every table *)

#[global] Instance ClientUser_laws : ModelLaws ClientUserRow ClientUserKw.
Proof.
  split.
  - reflexivity.
  - intros i kw. simpl. unfold same_pair. simpl. rewrite !Z.eqb_refl. simpl.
    destruct (kw_gen_email_id kw) as [[g |] |]; simpl;
      rewrite ?Z.eqb_refl; reflexivity.
Qed.

#[global] Instance GenEmail_laws : ModelLaws GenEmail GenEmailKw.
Proof.
  split.
  - reflexivity.
  - intros i kw. simpl. unfold same_email. simpl.
    rewrite Z.eqb_refl, String.eqb_refl. reflexivity.
Qed.

#[global] Instance Client_laws : ModelLaws Client ClientKw.
Proof.
  split.
  - reflexivity.
  - intros i kw. simpl. unfold same_oauth_client_id. simpl.
    rewrite Z.eqb_refl, !String.eqb_refl. reflexivity.
Qed.

Lemma find_filter_excluded {A : Type} (p : A → bool) (l : list A) :
  find p (List.filter (fun x => negb (p x)) l) = None.
Proof.
  induction l as [| a l IH]; simpl; [reflexivity |].
  destruct (p a) eqn:E; simpl; [assumption |]. rewrite E. assumption.
Qed.

Lemma find_filter_kept {A : Type} (p q : A → bool) (l : list A) :
  (∀ x, p x = true → q x = true) →
  find p (List.filter q l) = find p l.
Proof.
  intros Hpq. induction l as [| a l IH]; simpl; [reflexivity |].
  destruct (q a) eqn:Eq; simpl.
  - rewrite IH. reflexivity.
  - destruct (p a) eqn:Ep; [| assumption].
    rewrite (Hpq a Ep) in Eq. discriminate.
Qed.

Lemma filter_filter_same {A : Type} (f : A → bool) (l : list A) :
  List.filter f (List.filter f l) = List.filter f l.
Proof.
  induction l as [| a l IH]; simpl; [reflexivity |].
  destruct (f a) eqn:E; simpl; rewrite ?E, IH; reflexivity.
Qed.

Lemma filter_none_found {A : Type} (p : A → bool) (l : list A) :
  find p l = None → List.filter (fun x => negb (p x)) l = l.
Proof.
  induction l as [| a l IH]; simpl; [reflexivity |].
  destruct (p a); [discriminate |]. simpl. intros H. rewrite (IH H).
  reflexivity.
Qed.

Lemma elem_of_filter_bool {A : Type} (f : A → bool) (l : list A) (x : A) :
  x ∈ List.filter f l ↔ x ∈ l ∧ f x = true.
Proof.
  rewrite !list_elem_of_In. apply List.filter_In.
Qed.

Lemma largest_key_nonneg (keys : list Z) : (0 ≤ largest_key keys)%Z.
Proof.
  unfold largest_key. induction keys as [| k keys IH]; simpl; lia.
Qed.

Lemma largest_key_upper (keys : list Z) (k : Z) :
  k ∈ keys → (k ≤ largest_key keys)%Z.
Proof.
  unfold largest_key. induction keys as [| a keys IH]; intros Hin.
  - inversion Hin.
  - simpl. apply elem_of_cons in Hin as [-> | Hin]; [lia |].
    specialize (IH Hin). lia.
Qed.

Lemma largest_key_least (keys : list Z) (m : Z) :
  (0 ≤ m)%Z → (∀ k, k ∈ keys → (k ≤ m)%Z) → (largest_key keys ≤ m)%Z.
Proof.
  unfold largest_key. intros Hm.
  induction keys as [| a keys IH]; intros Hall; simpl; [lia |].
  assert (a ≤ m)%Z by (apply Hall; left).
  assert (foldr Z.max 0 keys ≤ m)%Z
    by (apply IH; intros k Hk; apply Hall; right; exact Hk).
  lia.
Qed.

Lemma NoDup_fmap_filter {A B : Type} (g : A → B) (f : A → bool) (l : list A) :
  NoDup (g <$> l) → NoDup (g <$> List.filter f l).
Proof.
  induction l as [| a l IH]; simpl; [trivial |].
  rewrite NoDup_cons. intros [Hnot Hnd].
  destruct (f a); [| apply IH; assumption].
  rewrite fmap_cons, NoDup_cons. split; [| apply IH; assumption].
  intros Hin. apply Hnot.
  apply list_elem_of_fmap in Hin as (x & Hx & Hin).
  apply elem_of_filter_bool in Hin as [Hin _].
  apply list_elem_of_fmap. exists x. split; assumption.
Qed.

Section ModelMixinFacts.

Context {Row Kw : Type} `{L : ModelLaws Row Kw}.

#[local] Set Default Proof Using "All".

Lemma find_by_primary_key (l : list Row) (r : Row) :
  NoDup (row_id <$> l) → r ∈ l →
  find (fun x => (row_id x =? row_id r)%Z) l = Some r.
Proof.
  induction l as [| a l IH]; intros Hnd Hin; [inversion Hin |].
  rewrite fmap_cons, NoDup_cons in Hnd. destruct Hnd as [Hnot Hnd].
  simpl. apply elem_of_cons in Hin as [-> | Hin].
  - rewrite Z.eqb_refl. reflexivity.
  - destruct (Z.eqb_spec (row_id a) (row_id r)) as [Heq | _].
    + exfalso. apply Hnot. rewrite Heq. apply list_elem_of_fmap.
      exists r. split; [reflexivity | assumption].
    + apply IH; assumption.
Qed.

Lemma session_add_primary_keys (r : Row) (t t' : Table Row) :
  primary_keys_ok t → row_id r = next_id t → session_add r t = Ok t' →
  primary_keys_ok t'.
Proof.
  unfold session_add, primary_keys_ok. intros (Hnd & Hone & Hlt) Hid H.
  destruct (constraints_hold (rows t) r); [| discriminate].
  injection H as <-. simpl. split; [| split; [lia |]].
  - rewrite fmap_app. apply NoDup_app. split; [assumption |].
    split; [| apply NoDup_singleton].
    intros x Hx Hx'. apply list_elem_of_singleton in Hx'. subst x.
    apply list_elem_of_fmap in Hx as (y & Hy & Hin).
    specialize (Hlt y Hin). lia.
  - intros x Hx. apply elem_of_app in Hx as [Hx | Hx].
    + specialize (Hlt x Hx). lia.
    + apply list_elem_of_singleton in Hx. subst x. lia.
Qed.

Lemma table_step_primary_keys (t t' : Table Row) :
  primary_keys_ok t → table_step t t' → primary_keys_ok t'.
Proof.
  intros Hinv Hstep.
  destruct Hstep as [kw t r t' H | kw t r t' H | backend obj_id t].
  - unfold get_or_create in H. destruct (get_by kw t).
    + injection H as _ <-. assumption.
    + destruct (session_add _ t) as [t'' |] eqn:Hadd;
        cbn [mbind result_bind] in H; [| discriminate].
      injection H as _ <-.
      eapply session_add_primary_keys; [eassumption | | eassumption].
      apply row_id_construct.
  - unfold create in H.
    destruct (session_add _ t) as [t'' |] eqn:Hadd;
      cbn [mbind result_bind] in H; [| discriminate].
    injection H as _ <-.
    eapply session_add_primary_keys; [eassumption | | eassumption].
    apply row_id_construct.
  - destruct Hinv as (Hnd & Hone & Hlt). unfold delete, primary_keys_ok.
    cbn [rows next_id].
    split; [apply NoDup_fmap_filter; assumption |].
    destruct backend.
    + split; [assumption |].
      intros x Hx. apply elem_of_filter_bool in Hx as [Hx _]. apply Hlt, Hx.
    + set (remaining :=
             List.filter (fun r => negb (row_id r =? obj_id)%Z) (rows t)).
      pose proof (largest_key_nonneg (row_id <$> remaining)).
      split; [lia |].
      intros x Hx.
      assert (row_id x ≤ largest_key (row_id <$> remaining))%Z.
      { apply largest_key_upper. apply list_elem_of_fmap.
        exists x. split; [reflexivity | exact Hx]. }
      apply elem_of_filter_bool in Hx as [Hx _]. specialize (Hlt x Hx). lia.
Qed.

Lemma reachable_keys (t : Table Row) : reachable t → primary_keys_ok t.
Proof.
  revert t. apply (rtc_ind_r (R := table_step) primary_keys_ok).
  - unfold primary_keys_ok. simpl. split; [constructor |].
    split; [lia |]. intros r Hr. inversion Hr.
  - intros t1 t2 _ Hstep Hinv. eapply table_step_primary_keys; eassumption.
Qed.

(** X12. In every reachable table the primary keys are pairwise distinct,
    positive and below the next value of the sequence, and [get] with the
    key of a stored row returns that row. *)
Theorem reachable_primary_keys (t : Table Row) :
  reachable t →
  primary_keys_ok t ∧ ∀ r, r ∈ rows t → get (row_id r) t = Some r.
Proof.
  intros Hreach. pose proof (reachable_keys t Hreach) as Hok.
  split; [assumption |].
  intros r Hr. unfold get. apply find_by_primary_key; [apply Hok | assumption].
Qed.

(** X13. A successful [create] in a reachable table returns a row whose
    primary key is the next value of the sequence, a key no stored row had;
    the row is selected by the keyword arguments it was built from, it is
    appended to the table, and [get] with its key returns it afterwards. *)
Theorem create_then_get (kw : Kw) (t t' : Table Row) (r : Row) :
  reachable t → create kw t = Ok (r, t') →
  row_id r = next_id t
  ∧ get (row_id r) t = None
  ∧ rows t' = rows t ++ [r]
  ∧ filter_matches kw r = true
  ∧ get (row_id r) t' = Some r
  ∧ reachable t'.
Proof.
  intros Hreach Hcreate.
  assert (Hreach' : reachable t').
  { unfold reachable in *. eapply rtc_r; [exact Hreach |].
    eapply step_create. exact Hcreate. }
  destruct (reachable_keys t Hreach) as (_ & _ & Hlt).
  pose proof (reachable_keys t' Hreach') as (Hnd' & _ & _).
  unfold create, session_add in Hcreate.
  destruct (constraints_hold (rows t) (construct (next_id t) kw));
    cbn [mbind result_bind] in Hcreate; [| discriminate].
  injection Hcreate as <- <-.
  rewrite row_id_construct in *.
  split; [reflexivity |]. split.
  - unfold get. destruct (find _ (rows t)) as [x |] eqn:E; [| reflexivity].
    apply find_some in E as [Hin Heq]. apply list_elem_of_In in Hin.
    apply Z.eqb_eq in Heq. specialize (Hlt x Hin). lia.
  - split; [reflexivity |]. split; [apply construct_matches |].
    split; [| assumption].
    pose proof (find_by_primary_key _ (construct (next_id t) kw) Hnd') as Hget'.
    rewrite row_id_construct in Hget'. apply Hget'. simpl.
    apply elem_of_app. right. apply list_elem_of_singleton. reflexivity.
Qed.

(** X14. [delete] removes the row with the given primary key and nothing
    else, on either kind of database: [get] no longer finds the key, every
    other key is found as before, deleting twice is deleting once, and
    deleting a key that is not stored leaves the rows as they are. Whether
    the key comes back depends on the database. With a sequence, the row
    created after the deletion of a stored row does not receive the deleted
    key. With the largest key plus one, the row created next receives one
    more than the largest key that remains, which is the deleted key again
    when that was the largest and the key before it is stored (or it was
    [1]). *)
Theorem delete_then_get (backend : KeyAllocation) (obj_id : Z)
    (t : Table Row) :
  get obj_id (delete backend obj_id t) = None
  ∧ (∀ i, i ≠ obj_id → get i (delete backend obj_id t) = get i t)
  ∧ delete backend obj_id (delete backend obj_id t) = delete backend obj_id t
  ∧ (get obj_id t = None →
     rows (delete backend obj_id t) = rows t
     ∧ delete FromSequence obj_id t = t)
  ∧ (reachable t → get obj_id t ≠ None →
     ∀ kw r t', create kw (delete FromSequence obj_id t) = Ok (r, t') →
       row_id r ≠ obj_id)
  ∧ (∀ kw r t', create kw (delete LargestPlusOne obj_id t) = Ok (r, t') →
       row_id r
       = (largest_key (row_id <$> rows (delete LargestPlusOne obj_id t)) + 1)%Z
       ∧ ((∀ x, x ∈ rows t → (row_id x ≤ obj_id)%Z) →
          obj_id = 1%Z ∨ (∃ y, y ∈ rows t ∧ row_id y = (obj_id - 1)%Z
                               ∧ (1 ≤ obj_id)%Z) →
          row_id r = obj_id)).
Proof.
  assert (Hrows : ∀ b, rows (delete b obj_id t)
            = List.filter (fun r => negb (row_id r =? obj_id)%Z) (rows t))
    by (intros b; reflexivity).
  split; [| split; [| split; [| split; [| split]]]].
  - unfold get. rewrite Hrows.
    apply (find_filter_excluded (fun r => (row_id r =? obj_id)%Z)).
  - intros i Hi. unfold get. rewrite Hrows. apply find_filter_kept.
    intros x Hx. apply Z.eqb_eq in Hx. apply negb_true_iff, Z.eqb_neq. lia.
  - unfold delete. cbn [rows next_id]. rewrite filter_filter_same.
    destruct backend; reflexivity.
  - unfold get. intros H.
    pose proof (filter_none_found (fun r => (row_id r =? obj_id)%Z) (rows t) H)
      as Hsame.
    split; [rewrite Hrows; exact Hsame |].
    unfold delete. cbn zeta. rewrite Hsame. destruct t; reflexivity.
  - intros Hreach Hstored kw r t' Hcreate.
    destruct (reachable_keys t Hreach) as (_ & _ & Hlt).
    unfold get in Hstored.
    destruct (find (fun r0 => (row_id r0 =? obj_id)%Z) (rows t)) as [x |] eqn:E;
      [| congruence].
    apply find_some in E as [Hin Heq]. apply list_elem_of_In in Hin.
    apply Z.eqb_eq in Heq. specialize (Hlt x Hin).
    unfold create, session_add in Hcreate.
    destruct (constraints_hold _ _); cbn [mbind result_bind] in Hcreate;
      [| discriminate].
    injection Hcreate as <- _. rewrite row_id_construct. simpl. lia.
  - intros kw r t' Hcreate.
    unfold create, session_add in Hcreate.
    destruct (constraints_hold _ _); cbn [mbind result_bind] in Hcreate;
      [| discriminate].
    injection Hcreate as <- _. rewrite row_id_construct.
    split; [reflexivity |].
    intros Hmax Hprev. cbn [delete rows next_id].
    set (remaining :=
           List.filter (fun r => negb (row_id r =? obj_id)%Z) (rows t)).
    assert (Hle : ∀ k, k ∈ row_id <$> remaining → (k ≤ obj_id - 1)%Z).
    { intros k Hk. apply list_elem_of_fmap in Hk as (x & -> & Hx).
      apply elem_of_filter_bool in Hx as [Hx Hne].
      apply negb_true_iff, Z.eqb_neq in Hne. specialize (Hmax x Hx). lia. }
    destruct Hprev as [-> | (y & Hy & Hyid & Hone)].
    + pose proof (largest_key_nonneg (row_id <$> remaining)).
      pose proof (largest_key_least (row_id <$> remaining) 0 ltac:(lia) Hle).
      lia.
    + pose proof (largest_key_least (row_id <$> remaining) (obj_id - 1)
                    ltac:(lia) Hle).
      assert (row_id y ≤ largest_key (row_id <$> remaining))%Z.
      { apply largest_key_upper. apply list_elem_of_fmap. exists y.
        split; [reflexivity |]. apply elem_of_filter_bool.
        split; [exact Hy |]. apply negb_true_iff, Z.eqb_neq. lia. }
      lia.
Qed.

(** X15. Whenever [get_or_create] succeeds, for any keyword arguments, the
    row it returns is selected by them and is stored in the table
    afterwards; either it was the first such row and the table is
    unchanged, or there was none and the row was appended. A second call
    with the same arguments returns the same row and changes nothing. When
    it fails, the exception is [IntegrityError], no row matched and the
    table refused the new row. *)
Theorem get_or_create_outcome (kw : Kw) (t : Table Row) :
  (∀ r t', get_or_create kw t = Ok (r, t') →
     filter_matches kw r = true
     ∧ r ∈ rows t'
     ∧ (get_by kw t = Some r ∧ t' = t
        ∨ get_by kw t = None ∧ rows t' = rows t ++ [r]
          ∧ row_id r = next_id t)
     ∧ get_by kw t' = Some r
     ∧ get_or_create kw t' = Ok (r, t'))
  ∧ (∀ err, get_or_create kw t = Raise err →
       err = IntegrityError
       ∧ get_by kw t = None
       ∧ constraints_hold (rows t) (construct (next_id t) kw) = false).
Proof.
  unfold get_or_create at 1 3.
  destruct (get_by kw t) as [r0 |] eqn:Hget.
  - split; [| discriminate].
    intros r t' H. injection H as <- <-.
    unfold get_by in Hget. pose proof (find_some _ _ Hget) as [Hin Hm].
    split; [exact Hm |]. split; [apply list_elem_of_In; exact Hin |].
    split; [left; split; reflexivity |]. split; [exact Hget |].
    unfold get_or_create, get_by. rewrite Hget. reflexivity.
  - unfold session_add.
    destruct (constraints_hold (rows t) (construct (next_id t) kw)) eqn:Hc;
      cbn [mbind result_bind].
    + split; [| discriminate].
      intros r t' H. injection H as <- <-.
      assert (Hfound : get_by kw
                {| rows := rows t ++ [construct (next_id t) kw];
                   next_id := (next_id t + 1)%Z |}
              = Some (construct (next_id t) kw)).
      { unfold get_by. simpl. apply find_app_none; [exact Hget |].
        apply construct_matches. }
      split; [apply construct_matches |].
      split; [simpl; apply elem_of_app; right;
              apply list_elem_of_singleton; reflexivity |].
      split; [right; split; [reflexivity |]; split;
              [reflexivity | apply row_id_construct] |].
      split; [exact Hfound |].
      unfold get_or_create. rewrite Hfound. reflexivity.
    + split; [discriminate |].
      intros err H. injection H as <-. repeat split; reflexivity.
Qed.

End ModelMixinFacts.

Lemma sample_table_reachable : reachable sample_table.
Proof.
  unfold reachable. apply rtc_once.
  apply (step_get_or_create (binding_kw 7 1) empty_table sample_row).
  vm_compute. reflexivity.
Qed.

Lemma reachable_primary_keys_witness :
  reachable sample_table ∧ get 1 sample_table = Some sample_row.
Proof.
  split; [exact sample_table_reachable |].
  apply (proj2 (reachable_primary_keys sample_table sample_table_reachable)
           sample_row).
  simpl. apply list_elem_of_singleton. reflexivity.
Defined.

Lemma create_then_get_witness :
  reachable sample_table
  ∧ create (binding_kw 9 1) sample_table
    = Ok (sample_second_row, sample_table_two)
  ∧ get 2 sample_table_two = Some sample_second_row.
Proof.
  assert (H : create (binding_kw 9 1) sample_table
              = Ok (sample_second_row, sample_table_two))
    by (vm_compute; reflexivity).
  split; [exact sample_table_reachable |]. split; [exact H |].
  destruct (create_then_get (binding_kw 9 1) sample_table sample_table_two
              sample_second_row sample_table_reachable H)
    as (_ & _ & _ & _ & Hget & _).
  exact Hget.
Defined.

Lemma delete_then_get_witness :
  reachable sample_table
  ∧ get 1 sample_table ≠ None
  ∧ create (binding_kw 7 1) (delete FromSequence 1 sample_table)
    = Ok (sample_row_key_two,
          {| rows := [sample_row_key_two]; next_id := 3 |})
  ∧ (2 ≠ 1)%Z
  ∧ create (binding_kw 7 1) (delete LargestPlusOne 1 sample_table)
    = Ok (sample_row, sample_table)
  ∧ cur_id sample_row = 1%Z.
Proof.
  assert (Hget : get 1 sample_table ≠ None) by (vm_compute; discriminate).
  assert (H : create (binding_kw 7 1) (delete FromSequence 1 sample_table)
              = Ok (sample_row_key_two,
                    {| rows := [sample_row_key_two]; next_id := 3 |}))
    by (vm_compute; reflexivity).
  assert (H' : create (binding_kw 7 1) (delete LargestPlusOne 1 sample_table)
               = Ok (sample_row, sample_table))
    by (vm_compute; reflexivity).
  split; [exact sample_table_reachable |]. split; [exact Hget |].
  split; [exact H |].
  split.
  { apply (proj1 (proj2 (proj2 (proj2 (proj2
             (delete_then_get FromSequence 1 sample_table)))))
             sample_table_reachable Hget (binding_kw 7 1) _ _ H). }
  split; [exact H' |].
  apply (proj2 (proj2 (proj2 (proj2 (proj2 (proj2
           (delete_then_get LargestPlusOne 1 sample_table)))))
           (binding_kw 7 1) _ _ H')).
  - intros x Hx. simpl in Hx. apply list_elem_of_singleton in Hx. subst x.
    simpl. lia.
  - left. reflexivity.
Defined.

Lemma get_or_create_outcome_witness :
  get_or_create (binding_kw 9 1) sample_table
  = Ok (sample_second_row, sample_table_two)
  ∧ get_or_create (binding_kw 9 1) sample_table_two
    = Ok (sample_second_row, sample_table_two).
Proof.
  assert (H : get_or_create (binding_kw 9 1) sample_table
              = Ok (sample_second_row, sample_table_two))
    by (vm_compute; reflexivity).
  split; [exact H |].
  destruct (proj1 (get_or_create_outcome (binding_kw 9 1) sample_table)
              sample_second_row sample_table_two H)
    as (_ & _ & _ & _ & Hagain).
  exact Hagain.
Defined.

(** ** Consent bindings: other keyword arguments, and [Client.nb_user] *)

Lemma option_Z_eqb_eq (a b : option Z) : option_Z_eqb a b = true ↔ a = b.
Proof.
  destruct a as [x |], b as [y |]; simpl; split; intros H;
    try discriminate; try reflexivity.
  - apply Z.eqb_eq in H. congruence.
  - injection H as ->. apply Z.eqb_refl.
Qed.

Lemma at_most_one_same_row (f : ClientUserRow → bool) (l : list ClientUserRow)
    (x y : ClientUserRow) :
  length (List.filter f l) ≤ 1 → x ∈ l → y ∈ l → f x = true → f y = true →
  x = y.
Proof.
  intros Hlen Hx Hy Hfx Hfy.
  assert (Hx' : x ∈ List.filter f l) by (apply elem_of_filter_bool; auto).
  assert (Hy' : y ∈ List.filter f l) by (apply elem_of_filter_bool; auto).
  destruct (List.filter f l) as [| a [| b rest]]; [inversion Hx' | | simpl in Hlen; lia].
  apply list_elem_of_singleton in Hx', Hy'. congruence.
Qed.

(** X16. [get_or_create] is keyed on all its keyword arguments, the
    constraint [uq_client_user] on the pair only: when a binding exists for
    a user and a client, a call that names the same pair and another
    [gen_email_id] finds no row, tries to insert a second row for the pair
    and raises [IntegrityError]. *)
Theorem get_or_create_other_gen_email_id (t : Table ClientUserRow)
    (r : ClientUserRow) (g : option Z) :
  reachable t → r ∈ rows t → g ≠ cur_gen_email_id r →
  get_or_create {| kw_user_id := cur_user_id r;
                   kw_client_id := cur_client_id r;
                   kw_gen_email_id := Some g |} t
  = Raise IntegrityError.
Proof.
  intros Hreach Hr Hg.
  pose proof (reachable_at_most_one t Hreach (cur_client_id r) (cur_user_id r))
    as Hone. unfold bindings_of in Hone.
  assert (Hpair : same_pair (cur_user_id r) (cur_client_id r) r = true).
  { unfold same_pair. rewrite !Z.eqb_refl. reflexivity. }
  unfold get_or_create, get_by.
  destruct (find _ (rows t)) as [x |] eqn:E.
  - exfalso. apply find_some in E as [Hin Hm]. apply list_elem_of_In in Hin.
    simpl in Hm. apply andb_true_iff in Hm as [Hxp Hxg].
    assert (x = r) by (eapply at_most_one_same_row; eassumption). subst x.
    apply option_Z_eqb_eq in Hxg. congruence.
  - unfold session_add. simpl. unfold uq_client_user. simpl.
    assert (Hex : existsb (same_pair (cur_user_id r) (cur_client_id r)) (rows t)
                  = true).
    { apply existsb_exists. exists r. split; [| exact Hpair].
      apply list_elem_of_In. exact Hr. }
    rewrite Hex. reflexivity.
Qed.

Lemma get_or_create_other_gen_email_id_witness :
  reachable sample_table
  ∧ get_or_create {| kw_user_id := 1; kw_client_id := 7;
                     kw_gen_email_id := Some (Some 4%Z) |} sample_table
    = Raise IntegrityError.
Proof.
  split; [exact sample_table_reachable |].
  apply (get_or_create_other_gen_email_id sample_table sample_row (Some 4%Z)
           sample_table_reachable).
  - simpl. apply list_elem_of_singleton. reflexivity.
  - discriminate.
Defined.

(** X17. [Client.nb_user] counts users, not rows: in a reachable table the
    rows of a client belong to pairwise distinct users. A [get_or_create]
    for the client and a user leaves the count as it is when the user is
    already bound to the client and raises it by one otherwise. *)
Theorem nb_user_counts_users (c : Client) (t : Table ClientUserRow) :
  reachable t →
  NoDup (users_of_client (client_row_id c) t)
  ∧ nb_user c t = Z.of_nat (length (users_of_client (client_row_id c) t))
  ∧ ∀ user r t',
      get_or_create (binding_kw (client_row_id c) user) t = Ok (r, t') →
      nb_user c t'
      = (nb_user c t
         + if decide (user ∈ users_of_client (client_row_id c) t)
           then 0 else 1)%Z.
Proof.
  intros Hreach. pose proof (reachable_at_most_one t Hreach) as Hone.
  split; [| split].
  - unfold users_of_client, at_most_one_binding, bindings_of in *.
    induction (rows t) as [| a l IH]; [constructor |].
    assert (Hl : ∀ client user,
              length (List.filter (same_pair user client) l) ≤ 1).
    { intros client user. specialize (Hone client user). simpl in Hone.
      destruct (same_pair user client a); simpl in Hone; lia. }
    simpl. destruct (of_client (client_row_id c) a) eqn:Ea;
      [| apply IH; exact Hl].
    rewrite fmap_cons, NoDup_cons. split; [| apply IH; exact Hl].
    intros Hin. apply list_elem_of_fmap in Hin as (x & Hx & Hin).
    apply elem_of_filter_bool in Hin as [Hin Hxc].
    unfold of_client in Ea, Hxc. apply Z.eqb_eq in Ea, Hxc.
    specialize (Hone (client_row_id c) (cur_user_id a)). simpl in Hone.
    assert (Ha : same_pair (cur_user_id a) (client_row_id c) a = true).
    { unfold same_pair. rewrite Ea, !Z.eqb_refl. reflexivity. }
    assert (Hxp : same_pair (cur_user_id a) (client_row_id c) x = true).
    { unfold same_pair. rewrite <- Hx, Hxc, !Z.eqb_refl. reflexivity. }
    rewrite Ha in Hone. simpl in Hone.
    assert (Hx' : x ∈ List.filter (same_pair (cur_user_id a) (client_row_id c)) l)
      by (apply elem_of_filter_bool; auto).
    destruct (List.filter _ l); [inversion Hx' | simpl in Hone; lia].
  - unfold nb_user, users_of_client. rewrite length_fmap. reflexivity.
  - intros user r t' H. unfold get_or_create in H.
    rewrite get_by_binding_kw in H.
    destruct (find (same_pair user (client_row_id c)) (rows t)) as [x |] eqn:E.
    + injection H as <- <-. apply find_some in E as [Hin Hp].
      apply same_pair_eq in Hp as [Hu Hc].
      destruct (decide (user ∈ users_of_client (client_row_id c) t)) as [_ | Hno];
        [lia |].
      exfalso. apply Hno. unfold users_of_client. apply list_elem_of_fmap.
      exists x. split; [auto |]. apply elem_of_filter_bool.
      split; [apply list_elem_of_In; exact Hin |].
      unfold of_client. apply Z.eqb_eq. exact Hc.
    + unfold session_add in H. simpl in H.
      destruct (uq_client_user (rows t) _); cbn [mbind result_bind] in H;
        [| discriminate].
      injection H as <- <-. unfold nb_user. simpl.
      rewrite List.filter_app, length_app. simpl.
      unfold of_client at 2. simpl. rewrite Z.eqb_refl. simpl.
      destruct (decide (user ∈ users_of_client (client_row_id c) t)) as [Hyes | _];
        [| lia].
      exfalso. unfold users_of_client in Hyes.
      apply list_elem_of_fmap in Hyes as (x & Hx & Hin).
      apply elem_of_filter_bool in Hin as [Hin Hxc].
      unfold of_client in Hxc. apply Z.eqb_eq in Hxc.
      apply list_elem_of_In in Hin.
      apply (find_none _ _ E x) in Hin. unfold same_pair in Hin.
      rewrite <- Hx, Hxc, !Z.eqb_refl in Hin. discriminate.
Qed.

Lemma nb_user_counts_users_witness :
  reachable sample_table
  ∧ nb_user sample_client sample_table = 1%Z
  ∧ nb_user sample_client
      {| rows := [sample_row;
                  {| cur_id := 2; cur_user_id := 5; cur_client_id := 7;
                     cur_gen_email_id := None |}];
         next_id := 3 |} = 2%Z.
Proof.
  split; [exact sample_table_reachable |]. split; [reflexivity |].
  destruct (nb_user_counts_users sample_client sample_table
              sample_table_reachable) as (_ & _ & Hstep).
  rewrite (Hstep 5%Z {| cur_id := 2; cur_user_id := 5; cur_client_id := 7;
                        cur_gen_email_id := None |}
             {| rows := [sample_row;
                         {| cur_id := 2; cur_user_id := 5; cur_client_id := 7;
                            cur_gen_email_id := None |}];
                next_id := 3 |});
    [| vm_compute; reflexivity].
  reflexivity.
Defined.

(** ** The default expiry of an activation code *)


